(** * fakegopath: temporary Go source trees

    A shallow embedding of [fakegopath.go] (package [fakegopath]) and of the
    parts of the Go runtime it calls: [path/filepath] (Clean, Join, Dir),
    [os] (MkdirAll, OpenFile, Open, RemoveAll, Getenv, Setenv), [io.Copy],
    [io/ioutil.TempDir], the [log] package and [go/build.Default.GOPATH].

    The package's functions are translated statement by statement into a
    state-and-error monad over a [World]: the file tree, the working
    directory, the process environment, the cached [build.Default.GOPATH],
    the supply of temporary-name suffixes and the log.

    Modelling decisions for the runtime (the package's own code makes none):
    - a file tree holds directories and regular files, no symbolic links;
    - the process may read, write and search every node it meets (access
      checks never fail), and the umask clears no owner bit, so a node is
      created with exactly the requested mode;
    - strings hold no NUL byte, so [os.Setenv] and the path conversions do
      not fail on their arguments;
    - closing a file never fails. *)

From Stdlib Require Import ZArith Ascii String.
From Stdlib.Strings Require Byte.
From stdpp Require Import gmap strings list fin_maps.

Local Open Scope Z_scope.

(** ** path/filepath (Unix) *)

Module filepath.

(** [os.IsPathSeparator] *)
Definition IsPathSeparator (c : ascii) : bool := Ascii.eqb c "/"%char.

(** The elements of a path: [strings.Split(s, "/")]. *)
Fixpoint elements (s : string) : list string :=
  match s with
  | EmptyString => [EmptyString]
  | String c r =>
      if IsPathSeparator c then EmptyString :: elements r
      else match elements r with
           | [] => [String c EmptyString]
           | x :: xs => String c x :: xs
           end
  end.

(** [strings.Join(l, "/")] *)
Fixpoint unelements (l : list string) : string :=
  match l with
  | [] => ""
  | [x] => x
  | x :: r => x +:+ "/" +:+ unelements r
  end.

Definition rooted (s : string) : bool :=
  match s with
  | String c _ => IsPathSeparator c
  | EmptyString => false
  end.

(** The loop of [Clean]: [out] is the output so far, last element first.
    An empty element and "." are dropped; ".." removes the last element
    of the output when there is one to remove, is dropped at the root and
    is kept at the start of a relative path. *)
Fixpoint clean_loop (isroot : bool) (out : list string) (es : list string)
  : list string :=
  match es with
  | [] => rev out
  | e :: rest =>
      if bool_decide (e = "" ∨ e = ".") then clean_loop isroot out rest
      else if bool_decide (e = "..") then
        match out with
        | top :: out' =>
            if bool_decide (top = "..")
            then clean_loop isroot (".." :: out) rest
            else clean_loop isroot out' rest
        | [] =>
            if isroot then clean_loop isroot [] rest
            else clean_loop isroot [".."] rest
        end
      else clean_loop isroot (e :: out) rest
  end.

(** [filepath.Clean] *)
Definition Clean (path : string) : string :=
  if bool_decide (path = "") then "."
  else
    let body := unelements (clean_loop (rooted path) [] (elements path)) in
    if rooted path then "/" +:+ body
    else if bool_decide (body = "") then "." else body.

(** [filepath.Join] of two elements: empty elements are ignored, the
    result is cleaned, and joining nothing gives the empty string. *)
Definition Join (a b : string) : string :=
  if bool_decide (a = "") then
    if bool_decide (b = "") then "" else Clean b
  else Clean (a +:+ "/" +:+ b).

Fixpoint has_separator (s : string) : bool :=
  match s with
  | EmptyString => false
  | String c r => IsPathSeparator c || has_separator r
  end.

(** [path[:i+1]] where [i] is the index of the last separator. *)
Fixpoint upto_last_separator (s : string) : string :=
  match s with
  | EmptyString => ""
  | String c r =>
      if has_separator s then String c (upto_last_separator r) else ""
  end.

(** [filepath.Dir] *)
Definition Dir (path : string) : string := Clean (upto_last_separator path).

End filepath.

(** ** Errors *)

Inductive Errno := ENOENT | ENOTDIR | EISDIR | EEXIST | EINVAL.

Definition Errno_Error (e : Errno) : string :=
  match e with
  | ENOENT => "no such file or directory"
  | ENOTDIR => "not a directory"
  | EISDIR => "is a directory"
  | EEXIST => "file exists"
  | EINVAL => "invalid argument"
  end.

(** A Go [error] value: an [*os.PathError] of the runtime, or the result of
    [fmt.Errorf], which is its formatted message. *)
Inductive error :=
| PathError (Op Path : string) (Err : Errno)
| Errorf (msg : string).

(** The [Error()] method, which is what the verb [%v] prints. *)
Definition Error (e : error) : string :=
  match e with
  | PathError op path err => op +:+ " " +:+ path +:+ ": " +:+ Errno_Error err
  | Errorf msg => msg
  end.


(** ** The world: file tree, environment, cached GOPATH, log *)

(** Permission bits, written in octal in the source. *)
Definition mode_0700 : Z := 0x1C0.
Definition mode_0600 : Z := 0x180.
Definition mode_0755 : Z := 0x1ED.

Inductive Node :=
| DirNode (mode : Z)
| FileNode (mode : Z) (data : list Byte.byte).

(** A resolved location: the names from the root down. *)
Abbreviation location := (list string).

Record World := mkWorld {
  fs : gmap location Node;        (* the file tree, by absolute location *)
  cwd : location;                 (* the working directory *)
  env : gmap string string;       (* the process environment *)
  GOPATH : string;                (* build.Default.GOPATH *)
  suffixes : nat -> string;       (* what ioutil's nextSuffix returns, in order *)
  next_suffix : nat;
  logged : list string            (* lines printed by log.Println *)
}.

Definition set_fs (f : gmap location Node) (w : World) : World :=
  mkWorld f (cwd w) (env w) (GOPATH w) (suffixes w) (next_suffix w) (logged w).
Definition set_env (e : gmap string string) (w : World) : World :=
  mkWorld (fs w) (cwd w) e (GOPATH w) (suffixes w) (next_suffix w) (logged w).
Definition set_GOPATH (g : string) (w : World) : World :=
  mkWorld (fs w) (cwd w) (env w) g (suffixes w) (next_suffix w) (logged w).
Definition set_next_suffix (n : nat) (w : World) : World :=
  mkWorld (fs w) (cwd w) (env w) (GOPATH w) (suffixes w) n (logged w).
Definition set_logged (l : list string) (w : World) : World :=
  mkWorld (fs w) (cwd w) (env w) (GOPATH w) (suffixes w) (next_suffix w) l.

(** The node at a location; the root directory always exists. *)
Definition node_at (f : gmap location Node) (p : location) : option Node :=
  match p with
  | [] => Some (DirNode mode_0755)
  | _ => f !! p
  end.

(** ** The state-and-error monad of the translated functions *)

Inductive result (A : Type) :=
| Ok (a : A)
| Fail (e : error).
Arguments Ok {A} a.
Arguments Fail {A} e.

Definition IO (A : Type) : Type := World -> result A * World.

Definition ret {A} (a : A) : IO A := fun w => (Ok a, w).
Definition fail {A} (e : error) : IO A := fun w => (Fail e, w).

(** [x <- m ;; k]: run [m]; on an error return it ([if err != nil { return
    err }]), otherwise go on with [k]. *)
Definition bind {A B} (m : IO A) (k : A -> IO B) : IO B :=
  fun w => match m w with
           | (Ok a, w') => k a w'
           | (Fail e, w') => (Fail e, w')
           end.

(** [orelse m h]: as [bind], but an error [err] of [m] is replaced by [h err]
    ([if err != nil { return fmt.Errorf(..., err) }]). *)
Definition wrap {A} (m : IO A) (h : error -> error) : IO A :=
  fun w => match m w with
           | (Ok a, w') => (Ok a, w')
           | (Fail e, w') => (Fail (h e), w')
           end.

(** [defer d] around a body: [d] runs when the body returns, on every path. *)
Definition defer {A} (d : World -> World) (body : IO A) : IO A :=
  fun w => match body w with
           | (r, w') => (r, d w')
           end.

Declare Scope io_scope.
Delimit Scope io_scope with io.
Notation "x <- m ;; k" := (bind m (fun x => k))
  (at level 100, m at next level, right associativity) : io_scope.
Notation "m ;; k" := (bind m (fun _ => k))
  (at level 100, right associativity) : io_scope.
Local Open Scope io_scope.

(** ** package os *)

(** One step of path resolution from the directory [cur]. *)
Definition step (cur : location) (e : string) : location :=
  if bool_decide (e = "" ∨ e = ".") then cur
  else if bool_decide (e = "..") then removelast cur
  else cur ++ [e].

(** Path resolution as the kernel does it: every element is looked up in a
    directory that exists.  The location reached by the last element is
    returned whether or not something is there. *)
Fixpoint walk (f : gmap location Node) (cur : location) (es : list string)
  : Errno + location :=
  match es with
  | [] => inr cur
  | e :: rest =>
      match node_at f cur with
      | Some (DirNode _) => walk f (step cur e) rest
      | Some (FileNode _ _) => inl ENOTDIR
      | None => inl ENOENT
      end
  end.

Definition start (w : World) (name : string) : location :=
  if filepath.rooted name then [] else cwd w.

(** The empty string names no file. *)
Definition resolve (w : World) (name : string) : Errno + location :=
  if bool_decide (name = "") then inl ENOENT
  else walk (fs w) (start w name) (filepath.elements name).

(** [os.Stat] *)
Definition Stat (name : string) (w : World) : Errno + Node :=
  match resolve w name with
  | inl e => inl e
  | inr p => match node_at (fs w) p with
             | Some n => inr n
             | None => inl ENOENT
             end
  end.

(** [os.Getenv]: the value, or the empty string when the variable is unset. *)
Definition Getenv (key : string) (w : World) : string :=
  default "" (env w !! key).

(** [os.Setenv] *)
Definition Setenv (key value : string) (w : World) : World :=
  set_env (<[key := value]> (env w)) w.

(** [os.Mkdir] *)
Definition Mkdir (name : string) (perm : Z) : IO unit := fun w =>
  match resolve w name with
  | inl e => (Fail (PathError "mkdir" name e), w)
  | inr p =>
      match node_at (fs w) p with
      | Some _ => (Fail (PathError "mkdir" name EEXIST), w)
      | None => (Ok tt, set_fs (<[p := DirNode perm]> (fs w)) w)
      end
  end.

(** [os.MkdirAll] makes the parents before the directory itself, so the
    elements of the path are created from the first one that is missing
    down; this is that loop, from the directory [cur].  [done] holds the
    elements already passed, last first: the error names the path up to the
    element that is in the way.  An element that is missing is created with
    [perm] (only a name can be missing: the test on [next]); one that exists
    must be a directory and is left as it is. *)
Fixpoint MkdirAll_from (perm : Z) (f : gmap location Node) (cur : location)
    (done : list string) (es : list string) : error + gmap location Node :=
  match es with
  | [] => inr f
  | e :: rest =>
      let next := step cur e in
      let here := filepath.unelements (rev (e :: done)) in
      match node_at f next with
      | Some (DirNode _) => MkdirAll_from perm f next (e :: done) rest
      | Some (FileNode _ _) => inl (PathError "mkdir" here ENOTDIR)
      | None =>
          if bool_decide (next = cur ++ [e])
          then MkdirAll_from perm (<[next := DirNode perm]> f) next (e :: done) rest
          else inl (PathError "mkdir" here ENOENT)
      end
  end.

(** [os.MkdirAll]: creates the directory [path] and every missing parent
    with mode [perm]; a directory that exists is left as it is. *)
Definition MkdirAll (path : string) (perm : Z) : IO unit := fun w =>
  if bool_decide (path = "") then (Fail (PathError "mkdir" path ENOENT), w)
  else
    match node_at (fs w) (start w path) with
    | Some (DirNode _) =>
        match MkdirAll_from perm (fs w) (start w path) [] (filepath.elements path) with
        | inl e => (Fail e, w)
        | inr f => (Ok tt, set_fs f w)
        end
    | Some (FileNode _ _) => (Fail (PathError "mkdir" path ENOTDIR), w)
    | None => (Fail (PathError "mkdir" path ENOENT), w)
    end.

(** An open file: the name it was opened under and the node it refers to. *)
Record File := mkFile { Name : string; at_location : location }.

(** [os.OpenFile(name, os.O_CREATE|os.O_RDWR, perm)]: the file is created
    empty with mode [perm] when nothing has that name; an existing file is
    opened as it is (no O_TRUNC), at offset 0; a directory cannot be opened
    for writing. *)
Definition OpenFile_CREATE_RDWR (name : string) (perm : Z) : IO File := fun w =>
  match resolve w name with
  | inl e => (Fail (PathError "open" name e), w)
  | inr p =>
      match node_at (fs w) p with
      | Some (DirNode _) => (Fail (PathError "open" name EISDIR), w)
      | Some (FileNode _ _) => (Ok (mkFile name p), w)
      | None => (Ok (mkFile name p), set_fs (<[p := FileNode perm []]> (fs w)) w)
      end
  end.

(** [os.Open]: opens a file or a directory for reading. *)
Definition Open (name : string) : IO File := fun w =>
  match resolve w name with
  | inl e => (Fail (PathError "open" name e), w)
  | inr p =>
      match node_at (fs w) p with
      | Some _ => (Ok (mkFile name p), w)
      | None => (Fail (PathError "open" name ENOENT), w)
      end
  end.

(** [File.Close] *)
Definition Close (f : File) (w : World) : option error * World := (None, w).

(** [os.RemoveAll] removes [path] and everything below it.  The empty path
    and a path that does not exist are not an error and nothing is removed;
    a path whose last element is "." is refused with EINVAL, as [rmdir]
    refuses it. *)
Definition endsWithDot (path : string) : bool :=
  bool_decide (last (filepath.elements path) = Some ".").

Definition below (p q : location) : Prop := p `prefix_of` q.

Definition RemoveAll (path : string) (w : World) : option error * World :=
  if bool_decide (path = "") then (None, w)
  else if endsWithDot path then (Some (PathError "RemoveAll" path EINVAL), w)
  else
    match resolve w path with
    | inl ENOENT => (None, w)
    | inl e => (Some (PathError "unlinkat" path e), w)
    | inr p =>
        match node_at (fs w) p with
        | None => (None, w)
        | Some _ => (None, set_fs (filter (fun kv => ¬ below p kv.1) (fs w)) w)
        end
    end.

(** ** package log *)

(** [fmt.Sprintln] of strings: the operands separated by spaces. *)
Fixpoint Sprintln (args : list string) : string :=
  match args with
  | [] => ""
  | [a] => a
  | a :: rest => a +:+ " " +:+ Sprintln rest
  end.

Definition log_Println (args : list string) (w : World) : World :=
  set_logged (logged w ++ [Sprintln args]) w.

(** ** package io *)

(** An [io.Reader]: a [*bytes.Buffer] or an open [*os.File]. *)
Inductive Reader :=
| bytes_Buffer (b : list Byte.byte)
| os_File (f : File).

(** Everything the reader yields; a directory cannot be read.  (A file that
    is open is never removed by this package, so the last case is idle.) *)
Definition ReadAll (r : Reader) (w : World) : error + list Byte.byte :=
  match r with
  | bytes_Buffer b => inr b
  | os_File f =>
      match node_at (fs w) (at_location f) with
      | Some (FileNode _ d) => inr d
      | Some (DirNode _) => inl (PathError "read" (Name f) EISDIR)
      | None => inr []
      end
  end.

(** Writing [data] at offset 0 of an open file: the bytes of the file past
    the length of [data] stay. *)
Definition overwrite (data old : list Byte.byte) : list Byte.byte :=
  data ++ drop (length data) old.

Definition WriteAt0 (f : File) (data : list Byte.byte) (w : World) : World :=
  match node_at (fs w) (at_location f) with
  | Some (FileNode m old) =>
      set_fs (<[at_location f := FileNode m (overwrite data old)]> (fs w)) w
  | _ => w
  end.

(** [io.Copy(dst, src)] into a file that has just been opened. *)
Definition io_Copy (dst : File) (src : Reader) : IO unit := fun w =>
  match ReadAll src w with
  | inl e => (Fail e, w)
  | inr data => (Ok tt, WriteAt0 dst data w)
  end.

(** ** package io/ioutil *)

(** [os.TempDir] *)
Definition os_TempDir (w : World) : string :=
  let dir := Getenv "TMPDIR" w in
  if bool_decide (dir = "") then "/tmp" else dir.

Definition nextSuffix : IO string := fun w =>
  (Ok (suffixes w (next_suffix w)), set_next_suffix (S (next_suffix w)) w).

(** The loop of [ioutil.TempDir]: at most [n] names are tried; a name that
    is taken is skipped, any other failure ends the loop. *)
Fixpoint TempDir_loop (n : nat) (dir pfx : string) (last : error) : IO string :=
  match n with
  | O => fail last
  | S n' =>
      (sfx <- nextSuffix ;;
       let try := filepath.Join dir (pfx +:+ sfx) in
       fun w =>
         match Mkdir try mode_0700 w with
         | (Ok _, w') => (Ok try, w')
         | (Fail (PathError op p EEXIST), w') =>
             TempDir_loop n' dir pfx (PathError op p EEXIST) w'
         | (Fail (PathError op p ENOENT), w') =>
             match Stat dir w' with
             | inl ENOENT => (Fail (PathError "stat" dir ENOENT), w')
             | _ => (Fail (PathError op p ENOENT), w')
             end
         | (Fail e, w') => (Fail e, w')
         end)%io
  end.

(** [ioutil.TempDir(dir, prefix)]: a new directory with mode 0700 whose name
    starts with [prefix], in [dir] or in the default directory for temporary
    files when [dir] is empty. *)
Definition TempDir (dir pfx : string) : IO string := fun w =>
  let dir := if bool_decide (dir = "") then os_TempDir w else dir in
  TempDir_loop (100 * 100) dir pfx (PathError "mkdir" dir EEXIST) w.

(** ** Control flow *)

(** [for _, x := range l { ... }] with a body that may return an error. *)
Fixpoint for_range {A} (l : list A) (body : A -> IO unit) : IO unit :=
  match l with
  | [] => ret tt
  | x :: rest => body x ;; for_range rest body
  end.

(** Run [m]; when it fails, run [cleanup] and return the error. *)
Definition on_error {A} (m : IO A) (cleanup : World -> World) : IO A :=
  fun w => match m w with
           | (Ok a, w') => (Ok a, w')
           | (Fail e, w') => (Fail e, cleanup w')
           end.

(** ** package fakegopath (fakegopath.go) *)

Record Temporary := mkTemporary {
  Path : string;      (* The path that is appended. *)
  Orig : string;      (* The original GOPATH *)
  Pkg : string;       (* The pkg directory *)
  Src : string;       (* The src directory *)
  Bin : string;       (* The bin directory *)
  update : bool;
  deleteDir : bool
}.

Definition set_Orig (o : string) (t : Temporary) : Temporary :=
  mkTemporary (Path t) o (Pkg t) (Src t) (Bin t) (update t) (deleteDir t).
Definition set_deleteDir (b : bool) (t : Temporary) : Temporary :=
  mkTemporary (Path t) (Orig t) (Pkg t) (Src t) (Bin t) (update t) b.

Module SourceFile.
(** [Content] is a slice: [None] is the nil slice, [Some []] an empty one. *)
Record t := mk {
  Src : string;
  Dest : string;
  Content : option (list Byte.byte)
}.
End SourceFile.

Definition KeepTempDir (keep : bool) (t : Temporary) : Temporary :=
  set_deleteDir (negb keep) t.

(** The body of the loop of [NewTemporary]. *)
Definition NewTemporary_mkdir (d : string) : IO unit :=
  wrap (MkdirAll d mode_0700)
       (fun err => Errorf ("failed to create " +:+ d +:+ ": " +:+ Error err)).

(** The error of [NewTemporary] when GOPATH and build.Default.GOPATH differ. *)
Definition GOPATH_mismatch (getenv orig : string) : error :=
  Errorf ("GOPATH " +:+ getenv +:+ " doesn't match build.Default.GOPATH " +:+ orig).

Definition NewTemporary (dir : string) (updateGoPath : bool) : IO Temporary :=
  let t := {| Path := dir;
              Orig := "";
              Pkg := filepath.Join dir "pkg";
              Src := filepath.Join dir "src";
              Bin := filepath.Join dir "bin";
              update := updateGoPath;
              deleteDir := false |} in
  for_range [Src t; Pkg t; Bin t] NewTemporary_mkdir ;;
  if update t then
    fun w =>
      let t := set_Orig (GOPATH w) t in
      if bool_decide (Getenv "GOPATH" w ≠ Orig t) then
        (Fail (GOPATH_mismatch (Getenv "GOPATH" w) (Orig t)), w)
      else
        let w := set_GOPATH (dir +:+ ":" +:+ GOPATH w) w in
        let w := Setenv "GOPATH" (GOPATH w) w in
        (Ok t, w)
  else ret t.

Definition logError (msg : string) (err : option error) (w : World) : World :=
  match err with
  | Some e => log_Println [msg; Error e] w
  | None => w
  end.

Definition loggedClose (file : string) (closer : File) (w : World) : World :=
  match Close closer w with
  | (err, w') => logError ("failed to close " +:+ file) err w'
  end.

Definition WriteFile (t : Temporary) (file : string) (contents : Reader) : IO unit :=
  let fullPath := filepath.Join (Src t) file in
  let fileDir := filepath.Dir fullPath in
  wrap (MkdirAll fileDir mode_0700)
       (fun err => Errorf ("failed to create dir " +:+ fileDir +:+ ": " +:+ Error err)) ;;
  w <- wrap (OpenFile_CREATE_RDWR fullPath mode_0600)
            (fun err => Errorf ("couldn't open " +:+ fullPath +:+ " for writing: "
                                +:+ Error err)) ;;
  defer (loggedClose fullPath w)
    (wrap (io_Copy w contents)
          (fun err => Errorf ("copy failed: " +:+ Error err)) ;;
     ret tt).

Definition CopyFile (t : Temporary) (dest src : string) : IO unit :=
  input <- wrap (Open src)
                (fun err => Errorf ("failed to open " +:+ src +:+ ": " +:+ Error err)) ;;
  defer (loggedClose src input)
    (WriteFile t dest (os_File input)).

(** [tpl.Execute(buf, args)] is the templating engine's: the template is
    taken as the function from its arguments to what it renders. *)
Definition GenerateFile {A} (t : Temporary) (file : string)
    (tpl : A -> error + list Byte.byte) (args : A) : IO unit :=
  match tpl args with
  | inl err => fail (Errorf ("failed to generate: " +:+ Error err))
  | inr buf => WriteFile t file (bytes_Buffer buf)
  end.

(** The body of the loop of [Copy]. *)
Definition Copy_entry (t : Temporary) (f : SourceFile.t) : IO unit :=
  match SourceFile.Content f with
  | Some content => WriteFile t (SourceFile.Dest f) (bytes_Buffer content)
  | None => CopyFile t (SourceFile.Dest f) (SourceFile.Src f)
  end.

Definition Copy (t : Temporary) (files : list SourceFile.t) : IO unit :=
  for_range files (Copy_entry t).

Definition Reset (t : Temporary) (w : World) : World :=
  let w :=
    if update t then
      let w := set_GOPATH (Orig t) w in
      Setenv "GOPATH" (Orig t) w
    else w in
  if deleteDir t then
    match RemoveAll (Path t) w with
    | (Some err, w') => log_Println [Error err] w'
    | (None, w') => w'
    end
  else w.

Definition NewTemporaryWithFiles (pfx : string) (files : list SourceFile.t)
  : IO Temporary :=
  dir <- TempDir "" pfx ;;
  t <- on_error (NewTemporary dir true) (fun w => (RemoveAll dir w).2) ;;
  let t := set_deleteDir true t in
  on_error (Copy t files) (Reset t) ;;
  ret t.

(** ** src/unnamed/part_000: the same package without [deleteDir],
    [KeepTempDir], [Copy] and [NewTemporaryWithFiles]; its [NewTemporary]
    puts the directory after the search path, not before it. *)

Module Part000.

Record Temporary := mkTemporary {
  Path : string;
  Orig : string;
  Pkg : string;
  Src : string;
  Bin : string;
  update : bool
}.

Definition set_Orig (o : string) (t : Temporary) : Temporary :=
  mkTemporary (Path t) o (Pkg t) (Src t) (Bin t) (update t).

Definition NewTemporary (dir : string) (updateGoPath : bool) : IO Temporary :=
  let t := {| Path := dir;
              Orig := "";
              Pkg := filepath.Join dir "pkg";
              Src := filepath.Join dir "src";
              Bin := filepath.Join dir "bin";
              update := updateGoPath |} in
  for_range [Src t; Pkg t; Bin t] NewTemporary_mkdir ;;
  if update t then
    fun w =>
      let t := set_Orig (GOPATH w) t in
      if bool_decide (Getenv "GOPATH" w ≠ Orig t) then
        (Fail (GOPATH_mismatch (Getenv "GOPATH" w) (Orig t)), w)
      else
        let w := set_GOPATH (GOPATH w +:+ ":" +:+ dir) w in
        let w := Setenv "GOPATH" (GOPATH w) w in
        (Ok t, w)
  else ret t.

Definition Reset (t : Temporary) (w : World) : World :=
  if update t then
    let w := set_GOPATH (Orig t) w in
    Setenv "GOPATH" (Orig t) w
  else w.

Definition WriteFile (t : Temporary) (file : string) (contents : Reader) : IO unit :=
  let fullPath := filepath.Join (Src t) file in
  let fileDir := filepath.Dir fullPath in
  wrap (MkdirAll fileDir mode_0700)
       (fun err => Errorf ("failed to create dir " +:+ fileDir +:+ ": " +:+ Error err)) ;;
  w <- wrap (OpenFile_CREATE_RDWR fullPath mode_0600)
            (fun err => Errorf ("couldn't open " +:+ fullPath +:+ " for writing: "
                                +:+ Error err)) ;;
  defer (loggedClose fullPath w)
    (wrap (io_Copy w contents)
          (fun err => Errorf ("copy failed: " +:+ Error err)) ;;
     ret tt).

Definition CopyFile (t : Temporary) (dest src : string) : IO unit :=
  input <- wrap (Open src)
                (fun err => Errorf ("failed to open " +:+ src +:+ ": " +:+ Error err)) ;;
  defer (loggedClose src input)
    (WriteFile t dest (os_File input)).

Definition GenerateFile {A} (t : Temporary) (file : string)
    (tpl : A -> error + list Byte.byte) (args : A) : IO unit :=
  match tpl args with
  | inl err => fail (Errorf ("failed to generate: " +:+ Error err))
  | inr buf => WriteFile t file (bytes_Buffer buf)
  end.

End Part000.

(** ** Notions used in the statements *)

(** Where a path leads from [cur], by its elements alone. *)
Definition locate (cur : location) (es : list string) : location :=
  foldl step cur es.

(** The location a path names in a world. *)
Definition location_of (w : World) (name : string) : location :=
  locate (start w name) (filepath.elements name).

(** An element that names an entry: not empty, not "." and not "..". *)
Definition is_name (e : string) : Prop := e ≠ "" ∧ e ≠ "." ∧ e ≠ "..".

(** Nothing is removed and no node changes its kind or mode: directories
    stay, files stay files (their content may change). *)
Definition preserves (f f' : gmap location Node) : Prop :=
  ∀ p, match node_at f p with
       | Some (DirNode m) => node_at f' p = Some (DirNode m)
       | Some (FileNode m _) => ∃ d, node_at f' p = Some (FileNode m d)
       | None => True
       end.

(** The process state outside the file tree is the same. *)
Definition same_process (w w' : World) : Prop :=
  cwd w' = cwd w ∧ env w' = env w ∧ GOPATH w' = GOPATH w.

(** What writing into the tree does to a world. *)
Definition grows (w w' : World) : Prop :=
  same_process w w' ∧ preserves (fs w) (fs w').

(** The destination of an entry is a regular file. *)
Definition written (t : Temporary) (f : SourceFile.t) (w : World) : Prop :=
  ∃ p m d, resolve w (filepath.Join (Src t) (SourceFile.Dest f)) = inr p
           ∧ node_at (fs w) p = Some (FileNode m d).

(** What other code of the process may do to the search path between the
    construction of a tree and its [Reset]. *)
Inductive mutation :=
| other_Setenv (value : string)        (* os.Setenv("GOPATH", value) *)
| other_Unsetenv                       (* os.Unsetenv("GOPATH") *)
| other_assign (value : string).       (* build.Default.GOPATH = value *)

Definition mutate (w : World) (m : mutation) : World :=
  match m with
  | other_Setenv v => Setenv "GOPATH" v w
  | other_Unsetenv => set_env (delete "GOPATH" (env w)) w
  | other_assign v => set_GOPATH v w
  end.

Definition mutations (ms : list mutation) (w : World) : World :=
  foldl mutate w ms.

(** ** Worlds of the examples *)

Definition digits (n : nat) : string :=
  match n with
  | 0%nat => "1000"
  | 1%nat => "1001"
  | _ => "1002"
  end.

Definition bytes (s : string) : list Byte.byte := String.list_byte_of_string s.

(** /tmp and /home exist, the working directory is /home and GOPATH is
    /go in the environment and in the cache. *)
Definition example_world : World :=
  mkWorld (<[ ["tmp"] := DirNode mode_0755 ]> (<[ ["home"] := DirNode mode_0755 ]> ∅))
          ["home"] (<[ "GOPATH" := "/go" ]> ∅) "/go" digits 0 [].

(** As [example_world], with a cache that is out of date. *)
Definition stale_world : World := set_GOPATH "/old" example_world.

(** As [stale_world], and /home/f is a regular file. *)
Definition blocked_world : World :=
  set_fs (<[ ["home"; "f"] := FileNode mode_0600 [] ]> (fs stale_world)) stale_world.

(** As [example_world], and /home/d/src exists with mode 0755. *)
Definition populated_world : World :=
  set_fs (<[ ["home"; "d"; "src"] := DirNode mode_0755 ]>
            (<[ ["home"; "d"] := DirNode mode_0755 ]> (fs example_world)))
         example_world.

(** As [populated_world], and /home/d/src/x holds "hello world". *)
Definition written_world : World :=
  set_fs (<[ ["home"; "d"; "src"; "x"] := FileNode mode_0600 (bytes "hello world") ]>
            (fs populated_world))
         populated_world.

(** A tree in d, relative to the working directory. *)
Definition example_tree : Temporary :=
  mkTemporary "d" "" "d/pkg" "d/src" "d/bin" false false.


(** Three entries, the second of which names a source that does not exist. *)
Definition example_files : list SourceFile.t :=
  [ SourceFile.mk "" "a/one.go" (Some (bytes "package a"));
    SourceFile.mk "/nonexistent" "a/two.go" None;
    SourceFile.mk "" "a/three.go" (Some (bytes "package a")) ].

(** A template that renders a package clause, and fails without a name. *)
Definition example_template (name : string) : error + list Byte.byte :=
  if bool_decide (name = "")
  then inl (Errorf "template: package name missing")
  else inr (bytes ("package " +:+ name)).

(** Closed goals about the example worlds are settled by evaluation. *)
Ltac by_computation := vm_compute; reflexivity.

(** ** The monad *)

Lemma bind_Ok {A B} (m : IO A) (k : A -> IO B) w b w' :
  bind m k w = (Ok b, w') ->
  ∃ a w1, m w = (Ok a, w1) ∧ k a w1 = (Ok b, w').
Proof.
  unfold bind. destruct (m w) as [[a|e] w1]; [eauto | discriminate].
Qed.

Lemma bind_Fail {A B} (m : IO A) (k : A -> IO B) w e w' :
  bind m k w = (Fail e, w') ->
  m w = (Fail e, w') ∨ ∃ a w1, m w = (Ok a, w1) ∧ k a w1 = (Fail e, w').
Proof.
  unfold bind. destruct (m w) as [[a|e1] w1]; [eauto | intros [= -> ->]; auto].
Qed.

Lemma wrap_Ok {A} (m : IO A) h w a w' :
  wrap m h w = (Ok a, w') -> m w = (Ok a, w').
Proof.
  unfold wrap. destruct (m w) as [[a1|e] w1]; [auto | discriminate].
Qed.

Lemma wrap_Fail {A} (m : IO A) h w e w' :
  wrap m h w = (Fail e, w') -> ∃ c, m w = (Fail c, w') ∧ e = h c.
Proof.
  unfold wrap. destruct (m w) as [[a1|c] w1]; [discriminate | intros [= <- <-]; eauto].
Qed.

(** ** The file tree *)

Lemma node_at_weaken f f' p n :
  f ⊆ f' -> node_at f p = Some n -> node_at f' p = Some n.
Proof.
  intros Hsub. destruct p; simpl; [auto | intros H; eapply lookup_weaken; eauto].
Qed.

Lemma node_at_insert_eq f p n : p ≠ [] -> node_at (<[p := n]> f) p = Some n.
Proof. destruct p; [done | intros _; simpl; apply lookup_insert_eq]. Qed.

Lemma node_at_insert_ne f p q n : p ≠ q -> node_at (<[p := n]> f) q = node_at f q.
Proof. intros Hne. destruct q; [done | simpl; by apply lookup_insert_ne]. Qed.

Lemma node_at_None f p : node_at f p = None -> p ≠ [] ∧ f !! p = None.
Proof. destruct p; [discriminate | intros H; split; [done | exact H]]. Qed.

Lemma preserves_refl f : preserves f f.
Proof. intros p. destruct (node_at f p) as [[m|m d]|]; eauto. Qed.

Lemma preserves_trans f1 f2 f3 : preserves f1 f2 -> preserves f2 f3 -> preserves f1 f3.
Proof.
  intros H12 H23 p. specialize (H12 p). specialize (H23 p).
  destruct (node_at f1 p) as [[m|m d]|]; [| |done].
  - by rewrite H12 in H23.
  - destruct H12 as [d' H12]. rewrite H12 in H23. exact H23.
Qed.

Lemma subseteq_preserves f f' : f ⊆ f' -> preserves f f'.
Proof.
  intros Hsub p. destruct (node_at f p) as [[m|m d]|] eqn:E; [| |done].
  - eapply node_at_weaken; eauto.
  - exists d. eapply node_at_weaken; eauto.
Qed.

Lemma preserves_dir f f' p m :
  preserves f f' -> node_at f p = Some (DirNode m) -> node_at f' p = Some (DirNode m).
Proof. intros H E. specialize (H p). by rewrite E in H. Qed.

Lemma preserves_file f f' p m d :
  preserves f f' -> node_at f p = Some (FileNode m d) ->
  ∃ d', node_at f' p = Some (FileNode m d').
Proof. intros H E. specialize (H p). by rewrite E in H. Qed.

(** Resolution gives the same location after the tree has grown. *)
Lemma walk_preserves f f' cur es p :
  preserves f f' -> walk f cur es = inr p -> walk f' cur es = inr p.
Proof.
  intros Hp. revert cur. induction es as [|e rest IH]; intros cur; simpl; [done|].
  destruct (node_at f cur) as [[m|m d]|] eqn:E; [|discriminate..].
  rewrite (preserves_dir _ _ _ _ Hp E). apply IH.
Qed.

Lemma walk_locate f cur es p : walk f cur es = inr p -> p = locate cur es.
Proof.
  revert cur. induction es as [|e rest IH]; intros cur; simpl.
  - by intros [= ->].
  - destruct (node_at f cur) as [[m|m d]|]; [|discriminate..]. apply IH.
Qed.

Lemma walk_app f cur es1 es2 :
  walk f cur (es1 ++ es2) =
  match walk f cur es1 with
  | inr q => walk f q es2
  | inl e => inl e
  end.
Proof.
  revert cur. induction es1 as [|e rest IH]; intros cur; simpl; [done|].
  destruct (node_at f cur) as [[m|m d]|]; [apply IH | done..].
Qed.

(** ** Paths and their elements *)

Lemma elements_nonempty s : filepath.elements s ≠ [].
Proof.
  destruct s as [|c r]; simpl; [done|].
  destruct (filepath.IsPathSeparator c); [done|].
  by destruct (filepath.elements r).
Qed.

Lemma IsPathSeparator_true c : filepath.IsPathSeparator c = true -> c = "/"%char.
Proof. unfold filepath.IsPathSeparator. apply Ascii.eqb_eq. Qed.

Lemma elements_app_sep a b :
  filepath.elements (a +:+ "/" +:+ b) = filepath.elements a ++ filepath.elements b.
Proof.
  induction a as [|c r IH]; simpl; [done|].
  destruct (filepath.IsPathSeparator c); [by rewrite IH|].
  rewrite IH. pose proof (elements_nonempty r).
  by destruct (filepath.elements r).
Qed.

Lemma unelements_elements s : filepath.unelements (filepath.elements s) = s.
Proof.
  induction s as [|c r IH]; simpl; [done|].
  pose proof (elements_nonempty r) as Hne.
  destruct (filepath.IsPathSeparator c) eqn:Ec.
  - apply IsPathSeparator_true in Ec as ->.
    destruct (filepath.elements r) as [|x xs]; [done|]. simpl in *. by rewrite IH.
  - destruct (filepath.elements r) as [|x xs]; [done|].
    destruct xs as [|y ys]; simpl in *; by rewrite <- IH.
Qed.

Lemma elements_no_separator s :
  Forall (fun e => filepath.has_separator e = false) (filepath.elements s).
Proof.
  induction s as [|c r IH]; simpl; [by repeat constructor|].
  destruct (filepath.IsPathSeparator c) eqn:Ec; [by constructor|].
  pose proof (elements_nonempty r).
  destruct (filepath.elements r) as [|x xs]; [done|].
  inversion IH as [|? ? Hx Hxs]; subst. constructor; [|done]. simpl. by rewrite Ec.
Qed.

Lemma elements_single e : filepath.has_separator e = false -> filepath.elements e = [e].
Proof.
  induction e as [|c r IH]; simpl; [done|].
  destruct (filepath.IsPathSeparator c); [done|]. simpl. intros H.
  by rewrite IH.
Qed.

Lemma elements_unelements l :
  l ≠ [] -> Forall (fun e => filepath.has_separator e = false) l ->
  filepath.elements (filepath.unelements l) = l.
Proof.
  induction l as [|x l IH]; [done|]. intros _ Hall.
  inversion Hall as [|? ? Hx Hl]; subst.
  destruct l as [|y l]; [by apply elements_single|].
  change (filepath.unelements (x :: y :: l))
    with (x +:+ "/" +:+ filepath.unelements (y :: l)).
  rewrite elements_app_sep, elements_single by done. by rewrite IH.
Qed.

Lemma rooted_app a b : a ≠ "" -> filepath.rooted (a +:+ b) = filepath.rooted a.
Proof. by destruct a. Qed.

Lemma rooted_elements s :
  filepath.rooted s = true -> ∃ es, filepath.elements s = "" :: es.
Proof.
  destruct s as [|c r]; simpl; [done|]. intros ->. eauto.
Qed.

Lemma unelements_not_rooted e l :
  e ≠ "" -> filepath.has_separator e = false ->
  filepath.rooted (filepath.unelements (e :: l)) = false
  ∧ filepath.unelements (e :: l) ≠ "".
Proof.
  intros Hne Hsep. destruct e as [|c r]; [done|]. simpl in Hsep.
  apply orb_false_iff in Hsep as [Hc _]. by destruct l.
Qed.

(** ** Clean keeps the location *)

Lemma step_name cur e : is_name e -> step cur e = cur ++ [e].
Proof.
  intros (H1 & H2 & H3). unfold step.
  rewrite bool_decide_eq_false_2 by (intros [|]; done).
  by rewrite bool_decide_eq_false_2.
Qed.

Lemma locate_app cur es1 es2 : locate cur (es1 ++ es2) = locate (locate cur es1) es2.
Proof. apply foldl_app. Qed.

Lemma locate_names cur names : Forall is_name names -> locate cur names = cur ++ names.
Proof.
  revert cur. induction names as [|n names IH]; intros cur Hall; simpl.
  - by rewrite app_nil_r.
  - inversion Hall; subst. rewrite step_name by done.
    unfold locate in IH. rewrite IH by done. by rewrite <- app_assoc.
Qed.

Lemma clean_loop_names r out names :
  Forall is_name names -> filepath.clean_loop r out names = rev out ++ names.
Proof.
  revert out. induction names as [|n names IH]; intros out Hall; simpl.
  - by rewrite app_nil_r.
  - inversion Hall as [|? ? (H1 & H2 & H3) Hn]; subst.
    rewrite bool_decide_eq_false_2 by (intros [|]; done).
    rewrite bool_decide_eq_false_2 by done.
    rewrite IH by done. simpl. by rewrite <- app_assoc.
Qed.

Lemma clean_loop_app_names r out es names :
  Forall is_name names ->
  filepath.clean_loop r out (es ++ names) = filepath.clean_loop r out es ++ names.
Proof.
  intros Hn. revert out. induction es as [|e es IH]; intros out; simpl.
  - by apply clean_loop_names.
  - repeat case_bool_decide; try done.
    + destruct out as [|top out']; [by destruct r|]. by case_bool_decide.
Qed.

Lemma step_dotdot cur : step cur ".." = removelast cur.
Proof. done. Qed.

Lemma step_skip cur e : e = "" ∨ e = "." -> step cur e = cur.
Proof. intros H. unfold step. by rewrite bool_decide_eq_true_2. Qed.

(** [Clean] is lexical, and resolution goes the same way: with the output
    made of names above leading ".." elements, cleaning the rest of a path
    leads to the same place as walking it. *)
Lemma locate_clean r cur out ns ds es :
  out = ns ++ ds ->
  Forall is_name ns -> Forall (eq "..") ds -> (r = true -> cur = []) ->
  locate cur (filepath.clean_loop r out es) = locate (locate cur (rev out)) es.
Proof.
  intros Hout Hns Hds Hr. revert out ns ds Hout Hns Hds.
  induction es as [|e es IH]; intros out ns ds -> Hns Hds; simpl; [done|].
  case_bool_decide as He1.
  { rewrite (IH _ ns ds) by done. by rewrite step_skip. }
  case_bool_decide as He2.
  - subst e. rewrite step_dotdot. destruct ns as [|top ns]; simpl.
    + destruct ds as [|d ds]; simpl.
      * destruct r.
        -- rewrite (IH _ [] []) by done. simpl. by rewrite Hr.
        -- by rewrite (IH _ [] [".."]) by (by repeat constructor).
      * inversion Hds; subst. rewrite bool_decide_eq_true_2 by done.
        rewrite (IH _ [] (".." :: ".." :: ds)) by (by repeat constructor).
        simpl. by rewrite locate_app.
    + inversion Hns as [|? ? Htop Hns']; subst.
      rewrite bool_decide_eq_false_2 by apply Htop.
      rewrite (IH _ ns ds) by done. rewrite locate_app. simpl.
      rewrite step_name by done. by rewrite removelast_last.
  - assert (is_name e) as Hname by (split_and!; naive_solver).
    rewrite (IH _ (e :: ns) ds) by (by try constructor).
    simpl. by rewrite locate_app.
Qed.

Lemma clean_loop_Forall (P : string -> Prop) r out es :
  P ".." -> Forall P out -> Forall P es -> Forall P (filepath.clean_loop r out es).
Proof.
  intros Hdd. revert out. induction es as [|e es IH]; intros out Hout Hes; simpl.
  - by apply Forall_rev.
  - inversion Hes; subst. repeat case_bool_decide; try (by apply IH).
    + destruct out as [|top out']; [destruct r; apply IH; by repeat constructor|].
      inversion Hout; subst. case_bool_decide; apply IH; by repeat constructor.
    + apply IH; by repeat constructor.
Qed.

Lemma clean_loop_no_empty r out es :
  Forall (fun e => e ≠ "") out -> Forall (fun e => e ≠ "") (filepath.clean_loop r out es).
Proof.
  revert out. induction es as [|e es IH]; intros out Hout; simpl.
  - by apply Forall_rev.
  - repeat case_bool_decide; try (by apply IH).
    + destruct out as [|top out']; [destruct r; apply IH; by repeat constructor|].
      inversion Hout; subst. case_bool_decide; apply IH; by repeat constructor.
    + apply IH. constructor; [naive_solver | done].
Qed.

(** [filepath.Join a b], for [b] made of names: its elements are those of
    [b] after elements that lead where [a] leads. *)
Lemma Join_elements w a b :
  Forall is_name (filepath.elements b) ->
  ∃ pre,
    filepath.elements (filepath.Join a b) = pre ++ filepath.elements b
    ∧ filepath.Join a b ≠ ""
    ∧ locate (start w (filepath.Join a b)) pre = location_of w a.
Proof.
  intros Hb. unfold filepath.Join. case_bool_decide as Ha.
  - subst a. assert (b ≠ "") as Hbne.
    { intros ->. inversion Hb as [|? ? (H & _) _]. done. }
    assert (filepath.rooted b = false) as Hroot.
    { destruct (filepath.rooted b) eqn:E; [|done].
      apply rooted_elements in E as [es E]. rewrite E in Hb.
      inversion Hb as [|? ? (H & _) _]. done. }
    rewrite bool_decide_eq_false_2 by done. unfold filepath.Clean.
    rewrite bool_decide_eq_false_2 by done. rewrite Hroot.
    rewrite clean_loop_names by done. simpl. rewrite unelements_elements.
    rewrite bool_decide_eq_false_2 by done.
    exists []. split; [done|]. split; [done|].
    unfold location_of, start. by rewrite Hroot.
  - unfold filepath.Clean.
    assert (a +:+ "/" +:+ b ≠ "") as Hne by (by destruct a).
    rewrite bool_decide_eq_false_2 by done.
    rewrite rooted_app, elements_app_sep by done.
    rewrite clean_loop_app_names by done.
    set (C := filepath.clean_loop (filepath.rooted a) [] (filepath.elements a)).
    assert (HCsep : Forall (fun e => filepath.has_separator e = false)
                      (C ++ filepath.elements b)).
    { apply Forall_app. split; [|apply elements_no_separator].
      apply clean_loop_Forall; [done | done | apply elements_no_separator]. }
    assert (HCne : Forall (fun e => e ≠ "") (C ++ filepath.elements b)).
    { apply Forall_app. split; [by apply clean_loop_no_empty|].
      eapply Forall_impl; [exact Hb|]. by intros e (? & _). }
    assert (HL : C ++ filepath.elements b ≠ []).
    { pose proof (elements_nonempty b). by destruct C, (filepath.elements b). }
    destruct (filepath.rooted a) eqn:Hroot.
    + exists ("" :: C). split; [|split; [done|]].
      * change (filepath.elements ("/" +:+ ?x)) with ("" :: filepath.elements x).
        by rewrite elements_unelements.
      * unfold location_of, start. rewrite Hroot. simpl.
        rewrite step_skip by auto.
        unfold C. by rewrite (locate_clean true [] [] [] []).
    + destruct (C ++ filepath.elements b) as [|e l] eqn:EL; [done|].
      inversion HCsep; inversion HCne; subst.
      destruct (unelements_not_rooted e l) as [Hnr Hnn]; [done..|].
      rewrite bool_decide_eq_false_2 by done.
      exists C. split; [by rewrite elements_unelements|]. split; [done|].
      unfold location_of, start. rewrite Hnr, Hroot.
      unfold C. by rewrite (locate_clean false (cwd w) [] [] []).
Qed.

Lemma location_of_Join w a b :
  Forall is_name (filepath.elements b) ->
  location_of w (filepath.Join a b) = location_of w a ++ filepath.elements b.
Proof.
  intros Hb. destruct (Join_elements w a b Hb) as (pre & Hel & _ & Hloc).
  unfold location_of at 1. rewrite Hel, locate_app, Hloc. by apply locate_names.
Qed.

(** ** os.MkdirAll *)

Lemma MkdirAll_from_spec perm f cur done es f' :
  MkdirAll_from perm f cur done es = inr f' ->
  f ⊆ f'
  ∧ (∀ q n, f !! q = None -> f' !! q = Some n -> n = DirNode perm)
  ∧ (∀ m, node_at f cur = Some (DirNode m) ->
       walk f' cur es = inr (locate cur es)
       ∧ ∃ m', node_at f' (locate cur es) = Some (DirNode m')).
Proof.
  revert f cur done. induction es as [|e rest IH]; intros f cur done; simpl.
  - intros [= <-]. split; [done|]. split; [congruence|]. eauto.
  - destruct (node_at f (step cur e)) as [[m1|m1 d1]|] eqn:E; [| discriminate |].
    + intros H. destruct (IH _ _ _ H) as (Hsub & Hnew & Hwalk).
      split; [done|]. split; [done|]. intros m Hcur.
      rewrite (node_at_weaken _ _ _ _ Hsub Hcur). eauto.
    + case_bool_decide as Hname; [|discriminate].
      intros H. destruct (IH _ _ _ H) as (Hsub & Hnew & Hwalk).
      destruct (node_at_None _ _ E) as [Hne Hnone].
      assert (Hsub1 : f ⊆ <[step cur e := DirNode perm]> f) by by apply insert_subseteq.
      split; [by etrans|]. split.
      * intros q n Hq Hq'. destruct (decide (q = step cur e)) as [->|Hqne].
        -- assert (f' !! step cur e = Some (DirNode perm)) as Hx
             by (eapply lookup_weaken; [apply lookup_insert_eq | done]).
           congruence.
        -- eapply Hnew; [|done]. by rewrite lookup_insert_ne.
      * intros m Hcur.
        rewrite (node_at_weaken f f' cur (DirNode m)); [|by etrans|done].
        eapply Hwalk. by apply node_at_insert_eq.
Qed.

Lemma MkdirAll_Ok path perm w w' :
  MkdirAll path perm w = (Ok tt, w') ->
  w' = set_fs (fs w') w
  ∧ fs w ⊆ fs w'
  ∧ (∀ q n, fs w !! q = None -> fs w' !! q = Some n -> n = DirNode perm)
  ∧ resolve w' path = inr (location_of w path)
  ∧ ∃ m, node_at (fs w') (location_of w path) = Some (DirNode m).
Proof.
  unfold MkdirAll. case_bool_decide as Hpath; [discriminate|].
  destruct (node_at (fs w) (start w path)) as [[m|m d]|] eqn:E; [|discriminate..].
  destruct (MkdirAll_from _ _ _ _ _) as [e|f] eqn:EM; [discriminate|].
  intros [= <-]. destruct (MkdirAll_from_spec _ _ _ _ _ _ EM) as (Hsub & Hnew & Hwalk).
  destruct (Hwalk _ E) as [Hw Hdir].
  split; [done|]. split; [done|]. split; [done|]. split; [|done].
  unfold resolve. rewrite bool_decide_eq_false_2 by done. exact Hw.
Qed.

Lemma MkdirAll_Fail path perm w e w' :
  MkdirAll path perm w = (Fail e, w') -> w' = w.
Proof.
  unfold MkdirAll. case_bool_decide; [by intros [= _ <-]|].
  destruct (node_at (fs w) (start w path)) as [[m|m d]|]; [|by intros [= _ <-]..].
  destruct (MkdirAll_from _ _ _ _ _); [by intros [= _ <-] | discriminate].
Qed.

Lemma resolve_ext w w' name :
  fs w' = fs w -> cwd w' = cwd w -> resolve w' name = resolve w name.
Proof. unfold resolve, start. by intros -> ->. Qed.

(** Resolution of a name depends on the tree and the working directory. *)
Lemma resolve_preserves w w' name p :
  cwd w' = cwd w -> preserves (fs w) (fs w') ->
  resolve w name = inr p -> resolve w' name = inr p.
Proof.
  unfold resolve, start. intros -> Hp. case_bool_decide; [done|].
  by apply walk_preserves.
Qed.

Lemma resolve_location_of w name p : resolve w name = inr p -> p = location_of w name.
Proof.
  unfold resolve, location_of. case_bool_decide; [done|]. apply walk_locate.
Qed.

Lemma location_of_same w w' name : cwd w' = cwd w -> location_of w' name = location_of w name.
Proof. unfold location_of, start. by intros ->. Qed.

(** ** Loops and worlds that grow *)

Lemma grows_refl w : grows w w.
Proof. split; [done | apply preserves_refl]. Qed.

Lemma grows_trans w1 w2 w3 : grows w1 w2 -> grows w2 w3 -> grows w1 w3.
Proof.
  intros [(? & ? & ?) ?] [(? & ? & ?) ?].
  split; [split_and!; congruence | by eapply preserves_trans].
Qed.

Lemma grows_set_fs w f : preserves (fs w) f -> grows w (set_fs f w).
Proof. intros H. split; [done | exact H]. Qed.

Lemma for_range_grows {A} (l : list A) (body : A -> IO unit) :
  (∀ x w r w', body x w = (r, w') -> grows w w') ->
  ∀ w r w', for_range l body w = (r, w') -> grows w w'.
Proof.
  intros Hbody. induction l as [|x rest IH]; intros w r w'; simpl.
  - intros [= _ <-]. apply grows_refl.
  - unfold bind. destruct (body x w) as [[[]|e] w1] eqn:E.
    + intros H. eapply grows_trans; [by eapply Hbody | by eapply IH].
    + intros [= _ <-]. by eapply Hbody.
Qed.

(** A failing loop failed at one element, after the ones before it went
    through; what follows that element plays no part. *)
Lemma for_range_Fail {A} (l : list A) (body : A -> IO unit) w e w' :
  for_range l body w = (Fail e, w') ->
  ∃ pre x post w1,
    l = pre ++ x :: post
    ∧ for_range pre body w = (Ok tt, w1)
    ∧ body x w1 = (Fail e, w').
Proof.
  revert w. induction l as [|x rest IH]; intros w; simpl; [discriminate|].
  unfold bind. destruct (body x w) as [[[]|e1] w1] eqn:E.
  - intros H. destruct (IH _ H) as (pre & y & post & w2 & -> & Hpre & Hy).
    exists (x :: pre), y, post, w2. split; [done|]. split; [|done].
    simpl. unfold bind. by rewrite E.
  - intros [= <- <-]. exists [], x, rest, w. by simpl.
Qed.

Lemma for_range_app_Fail {A} (pre post : list A) x (body : A -> IO unit) w w1 e w' :
  for_range pre body w = (Ok tt, w1) ->
  body x w1 = (Fail e, w') ->
  for_range (pre ++ x :: post) body w = (Fail e, w').
Proof.
  revert w. induction pre as [|y pre IH]; intros w; simpl.
  - intros [= <-] Hx. unfold bind. by rewrite Hx.
  - unfold bind. destruct (body y w) as [[[]|e1] w2]; [|discriminate].
    intros H Hx. by apply IH.
Qed.

(** ** NewTemporary *)

Lemma NewTemporary_mkdir_grows d w r w' :
  NewTemporary_mkdir d w = (r, w') -> grows w w'.
Proof.
  unfold NewTemporary_mkdir, wrap.
  destruct (MkdirAll d mode_0700 w) as [[[]|e] w1] eqn:E; intros [= _ <-].
  - destruct (MkdirAll_Ok _ _ _ _ E) as (-> & Hsub & _).
    apply grows_set_fs. by apply subseteq_preserves.
  - rewrite (MkdirAll_Fail _ _ _ _ _ E). apply grows_refl.
Qed.

Lemma NewTemporary_Ok dir upd w t w' :
  NewTemporary dir upd w = (Ok t, w') ->
  ∃ w1,
    for_range [filepath.Join dir "src"; filepath.Join dir "pkg"; filepath.Join dir "bin"]
      NewTemporary_mkdir w = (Ok tt, w1)
    ∧ Path t = dir ∧ Src t = filepath.Join dir "src"
    ∧ Pkg t = filepath.Join dir "pkg" ∧ Bin t = filepath.Join dir "bin"
    ∧ update t = upd ∧ deleteDir t = false
    ∧ if upd
      then Getenv "GOPATH" w1 = GOPATH w1 ∧ Orig t = GOPATH w1
           ∧ w' = Setenv "GOPATH" (dir +:+ ":" +:+ GOPATH w1)
                    (set_GOPATH (dir +:+ ":" +:+ GOPATH w1) w1)
      else w' = w1 ∧ Orig t = "".
Proof.
  unfold NewTemporary. intros H.
  apply bind_Ok in H as ([] & w1 & Hdirs & H). simpl in *.
  exists w1. split; [done|]. destruct upd.
  - case_bool_decide as Hne; [discriminate|].
    injection H as <- <-. by simpl.
  - injection H as <- <-. by simpl.
Qed.

Lemma NewTemporary_Fail dir upd w e w' :
  NewTemporary dir upd w = (Fail e, w') ->
  for_range [filepath.Join dir "src"; filepath.Join dir "pkg"; filepath.Join dir "bin"]
    NewTemporary_mkdir w = (Fail e, w')
  ∨ (upd = true
     ∧ for_range [filepath.Join dir "src"; filepath.Join dir "pkg"; filepath.Join dir "bin"]
         NewTemporary_mkdir w = (Ok tt, w')
     ∧ Getenv "GOPATH" w' ≠ GOPATH w'
     ∧ e = GOPATH_mismatch (Getenv "GOPATH" w') (GOPATH w')).
Proof.
  unfold NewTemporary. intros H.
  apply bind_Fail in H as [H | ([] & w1 & Hdirs & H)]; [by left|]. simpl in *.
  right. destruct upd; [|discriminate].
  case_bool_decide as Hne; [|discriminate].
  injection H as <- <-. by simpl.
Qed.

Lemma NewTemporary_dirs_grows ds w r w' :
  for_range ds NewTemporary_mkdir w = (r, w') -> grows w w'.
Proof. apply for_range_grows. apply NewTemporary_mkdir_grows. Qed.

Lemma Getenv_Setenv key value w : Getenv key (Setenv key value w) = value.
Proof. unfold Getenv, Setenv. simpl. by rewrite lookup_insert_eq. Qed.

Lemma NewTemporary_Ok_true dir w t w' :
  NewTemporary dir true w = (Ok t, w') ->
  Path t = dir ∧ update t = true
  ∧ Orig t = GOPATH w ∧ Orig t = Getenv "GOPATH" w
  ∧ cwd w' = cwd w ∧ preserves (fs w) (fs w').
Proof.
  intros H.
  apply NewTemporary_Ok in H as (w1 & Hdirs & Hpath & _ & _ & _ & Hupd & _ & Heq & Ho & ->).
  apply NewTemporary_dirs_grows in Hdirs as [(Hcwd & Henv & Hgo) Hp].
  split_and!; try done; unfold Getenv in *; congruence.
Qed.

(** C1.  After a successful [NewTemporary dir true], the environment
    variable GOPATH and the cached [build.Default.GOPATH] both hold [dir],
    then ":", then the value they had before the call (the directory is put
    in front), and [Orig] records that earlier value. *)
Theorem NewTemporary_prepends dir w t w' :
  NewTemporary dir true w = (Ok t, w') ->
  Getenv "GOPATH" w' = dir +:+ ":" +:+ Getenv "GOPATH" w
  ∧ GOPATH w' = dir +:+ ":" +:+ GOPATH w
  ∧ Orig t = GOPATH w
  ∧ Orig t = Getenv "GOPATH" w.
Proof.
  intros H. apply NewTemporary_Ok in H as (w1 & Hdirs & _ & _ & _ & _ & _ & _ & Heq & Ho & ->).
  apply NewTemporary_dirs_grows in Hdirs as [(_ & Henv & Hgo) _].
  unfold Getenv in *. rewrite Henv, Hgo in *.
  rewrite Ho. simpl. rewrite lookup_insert_eq. simpl. by rewrite Heq.
Qed.

(** The copy of the package in src/unnamed/part_000 puts the directory
    after the earlier value instead. *)
Lemma Part000_NewTemporary_appends dir w t w' :
  Part000.NewTemporary dir true w = (Ok t, w') ->
  Getenv "GOPATH" w' = Getenv "GOPATH" w +:+ ":" +:+ dir
  ∧ GOPATH w' = GOPATH w +:+ ":" +:+ dir
  ∧ Part000.Orig t = GOPATH w.
Proof.
  unfold Part000.NewTemporary. intros H.
  apply bind_Ok in H as ([] & w1 & Hdirs & H). simpl in H.
  case_bool_decide as Hne; [discriminate|].
  injection H as <- <-.
  apply NewTemporary_dirs_grows in Hdirs as [(_ & Henv & Hgo) _].
  unfold Getenv in *. rewrite Henv, Hgo in *. simpl.
  rewrite lookup_insert_eq. simpl. by rewrite Hne.
Qed.


Lemma NewTemporary_prepends_witness :
  let r := NewTemporary "d" true example_world in
  Getenv "GOPATH" r.2 = "d:/go" ∧ GOPATH r.2 = "d:/go".
Proof.
  intros r.
  destruct (NewTemporary_prepends "d" example_world
              (mkTemporary "d" "/go" "d/pkg" "d/src" "d/bin" true false) r.2)
    as (H1 & H2 & _); [by_computation|].
  split; [exact H1 | exact H2].
Defined.

(** C2 does not hold as stated: with the cache out of date and a regular
    file where the directory should go, [NewTemporary] reports the
    directory it could not create, not the mismatch. *)
Lemma NewTemporary_mismatch_counterexample :
  Getenv "GOPATH" blocked_world ≠ GOPATH blocked_world
  ∧ (NewTemporary "f" true blocked_world).1
    = Fail (Errorf "failed to create f/src: mkdir f: not a directory")
  ∧ ∀ a b, (NewTemporary "f" true blocked_world).1 ≠ Fail (GOPATH_mismatch a b).
Proof.
  assert (H : (NewTemporary "f" true blocked_world).1
              = Fail (Errorf "failed to create f/src: mkdir f: not a directory"))
    by by_computation.
  split; [vm_compute; discriminate|]. split; [exact H|].
  intros a b. rewrite H. unfold GOPATH_mismatch. simpl. discriminate.
Qed.

(** C2, amended.  When GOPATH in the environment and the cached
    [build.Default.GOPATH] differ, [NewTemporary dir true] fails and changes
    neither of them.  The error is the mismatch when the three directories
    could be made; otherwise it is the error of the directory that could not
    be made. *)
Theorem NewTemporary_mismatch dir w :
  Getenv "GOPATH" w ≠ GOPATH w ->
  ∃ e w',
    NewTemporary dir true w = (Fail e, w')
    ∧ env w' = env w ∧ GOPATH w' = GOPATH w
    ∧ ((e = GOPATH_mismatch (Getenv "GOPATH" w) (GOPATH w)
        ∧ for_range [filepath.Join dir "src"; filepath.Join dir "pkg"; filepath.Join dir "bin"]
            NewTemporary_mkdir w = (Ok tt, w'))
       ∨ ∃ d c w1,
           d ∈ [filepath.Join dir "src"; filepath.Join dir "pkg"; filepath.Join dir "bin"]
           ∧ MkdirAll d mode_0700 w1 = (Fail c, w')
           ∧ e = Errorf ("failed to create " +:+ d +:+ ": " +:+ Error c)).
Proof.
  intros Hne. destruct (NewTemporary dir true w) as [[t|e] w'] eqn:E.
  - exfalso. apply NewTemporary_Ok in E as (w1 & Hdirs & _ & _ & _ & _ & _ & _ & Heq & _).
    apply NewTemporary_dirs_grows in Hdirs as [(_ & Henv & Hgo) _].
    apply Hne. unfold Getenv in *. by rewrite <- Henv, <- Hgo.
  - exists e, w'. split; [done|].
    apply NewTemporary_Fail in E as [Hdirs | (_ & Hdirs & _ & ->)].
    + pose proof (NewTemporary_dirs_grows _ _ _ _ Hdirs) as [(_ & Henv & Hgo) _].
      split; [done|]. split; [done|]. right.
      apply for_range_Fail in Hdirs as (pre & d & post & w1 & Hl & _ & Hd).
      apply wrap_Fail in Hd as (c & Hc & ->).
      exists d, c, w1. split; [|done]. rewrite Hl. set_solver.
    + pose proof (NewTemporary_dirs_grows _ _ _ _ Hdirs) as [(_ & Henv & Hgo) _].
      split; [done|]. split; [done|]. left.
      unfold Getenv. by rewrite Henv, Hgo.
Qed.

Lemma NewTemporary_mismatch_witness :
  ∃ e w', NewTemporary "d" true stale_world = (Fail e, w')
          ∧ env w' = env stale_world ∧ GOPATH w' = GOPATH stale_world.
Proof.
  destruct (NewTemporary_mismatch "d" stale_world) as (e & w' & H1 & H2 & H3 & _).
  - vm_compute. discriminate.
  - exists e, w'. split; [exact H1|]. split; [exact H2 | exact H3].
Defined.

(** ** The layout made by NewTemporary *)

Lemma NewTemporary_dirs_Ok ds w w' :
  for_range ds NewTemporary_mkdir w = (Ok tt, w') ->
  w' = set_fs (fs w') w
  ∧ fs w ⊆ fs w'
  ∧ (∀ q n, fs w !! q = None -> fs w' !! q = Some n -> n = DirNode mode_0700)
  ∧ ∀ d, d ∈ ds ->
      resolve w' d = inr (location_of w d)
      ∧ ∃ m, node_at (fs w') (location_of w d) = Some (DirNode m).
Proof.
  revert w. induction ds as [|d ds IH]; intros w; simpl.
  - intros [= <-]. split; [by destruct w|]. split; [done|].
    split; [congruence|]. intros d Hd. by apply elem_of_nil in Hd.
  - intros H. apply bind_Ok in H as ([] & w1 & Hd & H).
    apply wrap_Ok in Hd.
    destruct (MkdirAll_Ok _ _ _ _ Hd) as (Hw1 & Hsub1 & Hnew1 & Hres1 & m1 & Hdir1).
    destruct (IH _ H) as (Hw' & Hsub & Hnew & Hall).
    assert (Hcwd : cwd w1 = cwd w) by (by rewrite Hw1).
    split; [rewrite Hw', Hw1; done|]. split; [by etrans|]. split.
    + intros q n Hq Hq'. destruct (fs w1 !! q) as [n1|] eqn:E.
      * rewrite (lookup_weaken _ _ _ _ E Hsub) in Hq'. injection Hq' as <-.
        by eapply Hnew1.
      * by eapply Hnew.
    + intros d' Hd'. apply elem_of_cons in Hd' as [->|Hd'].
      * split.
        -- assert (cwd w' = cwd w1) as Hc by (rewrite Hw'; reflexivity).
           eapply resolve_preserves; [exact Hc | by apply subseteq_preserves | done].
        -- exists m1. by eapply node_at_weaken.
      * rewrite <- (location_of_same w w1) by done. by apply Hall.
Qed.

(** C6 does not hold as stated: a [src] directory that is already there
    with mode 0755 is tolerated and keeps mode 0755. *)
Lemma NewTemporary_layout_counterexample :
  let r := NewTemporary "d" false populated_world in
  Stat "d/src" populated_world = inr (DirNode mode_0755)
  ∧ r.1 = Ok example_tree
  ∧ Stat (Src example_tree) r.2 = inr (DirNode mode_0755)
  ∧ mode_0755 ≠ mode_0700.
Proof.
  intros r. split; [by_computation|]. split; [by_computation|].
  split; [by_computation | done].
Qed.

(** C6, amended.  After a successful [NewTemporary], [Src], [Pkg] and [Bin]
    are [dir] joined with "src", "pkg" and "bin", and each names a
    directory, located at [dir]'s location followed by that name; one that
    was not there before the call has mode 0700, one that was there is the
    directory it was, with the mode it had.  When making one of the three
    fails, the ones before it having been made, [NewTemporary] returns
    "failed to create", the path in question and the error of
    [os.MkdirAll]. *)
Theorem NewTemporary_layout dir upd w :
  (∀ t w', NewTemporary dir upd w = (Ok t, w') ->
     Src t = filepath.Join dir "src"
     ∧ Pkg t = filepath.Join dir "pkg"
     ∧ Bin t = filepath.Join dir "bin"
     ∧ ∀ name, name ∈ ["src"; "pkg"; "bin"] ->
         let p := location_of w dir ++ [name] in
         ∃ m, resolve w' (filepath.Join dir name) = inr p
              ∧ node_at (fs w') p = Some (DirNode m)
              ∧ (node_at (fs w) p = None -> m = mode_0700)
              ∧ (∀ n, node_at (fs w) p = Some n -> n = DirNode m))
  ∧ (∀ pre d post w1 c w2,
       [filepath.Join dir "src"; filepath.Join dir "pkg"; filepath.Join dir "bin"]
       = pre ++ d :: post ->
       for_range pre NewTemporary_mkdir w = (Ok tt, w1) ->
       MkdirAll d mode_0700 w1 = (Fail c, w2) ->
       NewTemporary dir upd w
       = (Fail (Errorf ("failed to create " +:+ d +:+ ": " +:+ Error c)), w2)).
Proof.
  split.
  - intros t w' H.
    apply NewTemporary_Ok in H as (w1 & Hdirs & _ & Hsrc & Hpkg & Hbin & _ & _ & Hw').
    do 3 (split; [done|]). intros name Hname p.
    destruct (NewTemporary_dirs_Ok _ _ _ Hdirs) as (Hw1 & Hsub & Hnew & Hall).
    assert (location_of w (filepath.Join dir name) = p
                   ∧ filepath.Join dir name
                     ∈ [filepath.Join dir "src"; filepath.Join dir "pkg";
                        filepath.Join dir "bin"]) as [Hloc Hd].
    { repeat (apply elem_of_cons in Hname as [->|Hname]);
        [| | |by apply elem_of_nil in Hname];
        (split; [|apply list_elem_of_In; simpl; tauto]); rewrite location_of_Join; try done;
        repeat constructor; discriminate. }
    destruct (Hall _ Hd) as (Hres & m & Hm). rewrite Hloc in Hres, Hm.
    assert (fs w' = fs w1 ∧ cwd w' = cwd w1) as [Hfs Hcwd].
    { destruct upd; [by destruct Hw' as (_ & _ & ->) | by destruct Hw' as [-> _]]. }
    exists m. rewrite (resolve_ext w1 w') by done. rewrite Hfs.
    split; [done|]. split; [done|]. split.
    + intros Hnone. destruct (node_at_None _ _ Hnone) as [Hne Hnone'].
      destruct p as [|x l] eqn:El; [done|].
      simpl in Hm. specialize (Hnew _ _ Hnone' Hm). congruence.
    + intros n Hn. pose proof (node_at_weaken _ _ _ _ Hsub Hn). congruence.
  - intros pre d post w1 c w2 Hl Hpre Hd. unfold NewTemporary. cbn [Src Pkg Bin].
    rewrite Hl. unfold bind.
    erewrite for_range_app_Fail; [done | done |].
    unfold NewTemporary_mkdir, wrap. by rewrite Hd.
Qed.

Lemma NewTemporary_layout_witness :
  let r := NewTemporary "d" false populated_world in
  node_at (fs r.2) ["home"; "d"; "src"] = Some (DirNode mode_0755)
  ∧ node_at (fs r.2) ["home"; "d"; "pkg"] = Some (DirNode mode_0700)
  ∧ NewTemporary "f" true blocked_world
    = (Fail (Errorf "failed to create f/src: mkdir f: not a directory"), blocked_world).
Proof.
  intros r.
  destruct (NewTemporary_layout "d" false populated_world) as [H _].
  destruct (NewTemporary_layout "f" true blocked_world) as [_ H'].
  destruct (H example_tree r.2 ltac:(by_computation)) as (_ & _ & _ & Hdirs).
  destruct (Hdirs "src" ltac:(apply list_elem_of_In; simpl; tauto)) as (m1 & _ & H1 & _ & Hold1).
  destruct (Hdirs "pkg" ltac:(apply list_elem_of_In; simpl; tauto)) as (m2 & _ & H2 & Hnew2 & _).
  split; [|split].
  - rewrite <- (Hold1 (DirNode mode_0755) ltac:(by_computation)) in H1. exact H1.
  - rewrite <- (Hnew2 ltac:(by_computation)). exact H2.
  - apply (H' [] "f/src" ["f/pkg"; "f/bin"] blocked_world
             (PathError "mkdir" "f" ENOTDIR) blocked_world); by_computation.
Defined.

(** ** os.RemoveAll and Reset *)

Lemma RemoveAll_same_process path w r w' :
  RemoveAll path w = (r, w') -> same_process w w'.
Proof.
  unfold RemoveAll. case_bool_decide; [by intros [= _ <-]|].
  destruct (endsWithDot path); [by intros [= _ <-]|].
  destruct (resolve w path) as [[]|p]; try by intros [= _ <-].
  destruct (node_at (fs w) p); by intros [= _ <-].
Qed.

(** A path that names something, other than by "" or a last element ".",
    is removed with everything below it, and nothing else is. *)
Lemma RemoveAll_removes path w p n :
  path ≠ "" -> endsWithDot path = false ->
  resolve w path = inr p -> node_at (fs w) p = Some n ->
  (RemoveAll path w).1 = None
  ∧ (∀ q, below p q -> q ≠ [] -> fs (RemoveAll path w).2 !! q = None)
  ∧ (∀ q, ¬ below p q -> fs (RemoveAll path w).2 !! q = fs w !! q).
Proof.
  intros Hne Hdot Hres Hnode. unfold RemoveAll.
  rewrite bool_decide_eq_false_2 by done. rewrite Hdot, Hres, Hnode. simpl.
  split; [done|]. split.
  - intros q Hq _. apply map_lookup_filter_None. right. intros x _ Hx. by apply Hx.
  - intros q Hq. destruct (fs w !! q) as [x|] eqn:E.
    + apply map_lookup_filter_Some. by split.
    + apply map_lookup_filter_None. by left.
Qed.


Lemma Reset_keep t w : deleteDir t = false -> fs (Reset t w) = fs w ∧ cwd (Reset t w) = cwd w.
Proof. unfold Reset. intros ->. by destruct (update t). Qed.

Lemma Reset_GOPATH t w :
  update t = true ->
  GOPATH (Reset t w) = Orig t ∧ Getenv "GOPATH" (Reset t w) = Orig t.
Proof.
  unfold Reset. intros ->. destruct (deleteDir t).
  - destruct (RemoveAll _ _) as [r w'] eqn:E.
    apply RemoveAll_same_process in E as (_ & Henv & Hgo).
    assert (GOPATH w' = Orig t ∧ Getenv "GOPATH" w' = Orig t) as [H1 H2].
    { unfold Getenv. rewrite Henv, Hgo. simpl. by rewrite lookup_insert_eq. }
    by destruct r.
  - split; [done | apply Getenv_Setenv].
Qed.

(** What [Reset] does to the tree is what [RemoveAll] of the root does. *)
Lemma Reset_delete t w :
  deleteDir t = true ->
  ∃ w0, fs w0 = fs w ∧ cwd w0 = cwd w ∧ fs (Reset t w) = fs (RemoveAll (Path t) w0).2
        ∧ cwd (Reset t w) = cwd w.
Proof.
  unfold Reset. intros ->.
  set (w0 := if update t then _ else w).
  exists w0. assert (fs w0 = fs w ∧ cwd w0 = cwd w) as [Hfs Hcwd].
  { subst w0. by destruct (update t). }
  split; [done|]. split; [done|].
  destruct (RemoveAll (Path t) w0) as [r w'] eqn:E.
  pose proof (RemoveAll_same_process _ _ _ _ E) as (Hc & _).
  destruct r; simpl; split; congruence.
Qed.

(** C3.  Take a tree built by [NewTemporary dir true]; let the rest of the
    process then set or unset GOPATH and assign [build.Default.GOPATH] any
    number of times, and let [KeepTempDir] be called or not.  [Reset] puts
    both the cache and the environment variable back to the value recorded
    at construction, which is the value both had before it. *)
Theorem Reset_restores dir w0 t w1 (ms : list mutation) (del : bool) :
  NewTemporary dir true w0 = (Ok t, w1) ->
  let w3 := Reset (set_deleteDir del t) (mutations ms w1) in
  GOPATH w3 = Orig t ∧ Getenv "GOPATH" w3 = Orig t
  ∧ GOPATH w3 = GOPATH w0 ∧ Getenv "GOPATH" w3 = Getenv "GOPATH" w0.
Proof.
  intros H w3.
  apply NewTemporary_Ok_true in H as (_ & Hupd & Ho1 & Ho2 & _).
  destruct (Reset_GOPATH (set_deleteDir del t) (mutations ms w1)) as [H1 H2]; [done|].
  subst w3. simpl in H1, H2. rewrite H1, H2. by rewrite <- Ho1, <- Ho2.
Qed.

Lemma Reset_restores_witness :
  let r := NewTemporary "d" true example_world in
  let w3 := Reset (mkTemporary "d" "/go" "d/pkg" "d/src" "d/bin" true true)
              (mutations [other_Setenv "/elsewhere"; other_assign "/x"; other_Unsetenv] r.2) in
  GOPATH w3 = "/go" ∧ Getenv "GOPATH" w3 = "/go".
Proof.
  intros r w3.
  destruct (Reset_restores "d" example_world
              (mkTemporary "d" "/go" "d/pkg" "d/src" "d/bin" true false) r.2
              [other_Setenv "/elsewhere"; other_assign "/x"; other_Unsetenv] true)
    as (H1 & H2 & _); [by_computation|].
  split; [exact H1 | exact H2].
Defined.




(** ** WriteFile and CopyFile *)

Lemma loggedClose_id file f w : loggedClose file f w = w.
Proof. done. Qed.

Lemma OpenFile_Ok name perm w f w' :
  OpenFile_CREATE_RDWR name perm w = (Ok f, w') ->
  Name f = name ∧ resolve w name = inr (at_location f) ∧ at_location f ≠ []
  ∧ ((∃ m d, node_at (fs w) (at_location f) = Some (FileNode m d) ∧ w' = w)
     ∨ (node_at (fs w) (at_location f) = None
        ∧ w' = set_fs (<[at_location f := FileNode perm []]> (fs w)) w)).
Proof.
  unfold OpenFile_CREATE_RDWR. destruct (resolve w name) as [e|p] eqn:E; [discriminate|].
  destruct (node_at (fs w) p) as [[m|m d]|] eqn:En; [discriminate| |];
    intros [= <- <-]; simpl; (split; [done|]); (split; [done|]).
  - split; [by intros ->|]. left; eauto.
  - split; [by intros ->|]. by right.
Qed.

Lemma OpenFile_Fail name perm w e w' :
  OpenFile_CREATE_RDWR name perm w = (Fail e, w') -> w' = w.
Proof.
  unfold OpenFile_CREATE_RDWR. destruct (resolve w name) as [e1|p]; [by intros [= _ <-]|].
  destruct (node_at (fs w) p) as [[m|m d]|]; [by intros [= _ <-] | discriminate..].
Qed.

Lemma insert_file_preserves f p m d d' :
  node_at f p = Some (FileNode m d) ∨ node_at f p = None ->
  preserves f (<[p := FileNode m d']> f).
Proof.
  intros Hp q. destruct (decide (p = q)) as [<-|Hne].
  - assert (p ≠ []) as Hne by (intros ->; by destruct Hp).
    destruct Hp as [-> | ->]; [|done].
    exists d'. by apply node_at_insert_eq.
  - rewrite node_at_insert_ne by done. destruct (node_at f q) as [[]|]; eauto.
Qed.

Lemma WriteFile_Ok t file r w w' :
  WriteFile t file r w = (Ok tt, w') ->
  let full := filepath.Join (Src t) file in
  ∃ w1 w2 p m old data,
    MkdirAll (filepath.Dir full) mode_0700 w = (Ok tt, w1)
    ∧ resolve w1 full = inr p ∧ p ≠ []
    ∧ ((node_at (fs w1) p = Some (FileNode m old) ∧ w2 = w1)
       ∨ (node_at (fs w1) p = None ∧ m = mode_0600 ∧ old = []
          ∧ w2 = set_fs (<[p := FileNode mode_0600 []]> (fs w1)) w1))
    ∧ ReadAll r w2 = inr data
    ∧ w' = set_fs (<[p := FileNode m (overwrite data old)]> (fs w1)) w1.
Proof.
  intros H full. unfold WriteFile in H. fold full in H.
  apply bind_Ok in H as ([] & w1 & Hmk & H). apply wrap_Ok in Hmk.
  apply bind_Ok in H as (f & w2 & Hop & H). apply wrap_Ok in Hop.
  unfold defer in H. cbv beta in H.
  destruct (bind _ _ w2) as [r0 w3] eqn:Hcp. rewrite loggedClose_id in H.
  injection H as -> ->.
  apply bind_Ok in Hcp as ([] & w4 & Hcp & [= <-]). apply wrap_Ok in Hcp.
  unfold io_Copy in Hcp. destruct (ReadAll r w2) as [e|data] eqn:Hread; [discriminate|].
  injection Hcp as <-.
  destruct (OpenFile_Ok _ _ _ _ _ Hop) as (_ & Hres & Hne & [(m & d & Hnode & ->) | (Hnode & ->)]).
  - exists w1, w1, (at_location f), m, d, data.
    repeat (split; [done|]). split; [by left|]. split; [done|].
    unfold WriteAt0. by rewrite Hnode.
  - exists w1, (set_fs (<[at_location f := FileNode mode_0600 []]> (fs w1)) w1),
      (at_location f), mode_0600, [], data.
    repeat (split; [done|]). split; [by right|]. split; [done|].
    unfold WriteAt0. simpl. rewrite node_at_insert_eq by done.
    unfold set_fs. simpl. by rewrite insert_insert_eq.
Qed.

Lemma WriteAt0_grows f data w : grows w (WriteAt0 f data w).
Proof.
  unfold WriteAt0. destruct (node_at (fs w) (at_location f)) as [[m|m old]|] eqn:E;
    try apply grows_refl.
  apply grows_set_fs. eapply insert_file_preserves. eauto.
Qed.

Lemma MkdirAll_grows path perm w r w' : MkdirAll path perm w = (r, w') -> grows w w'.
Proof.
  destruct r as [[]|e]; intros H.
  - destruct (MkdirAll_Ok _ _ _ _ H) as (-> & Hsub & _).
    apply grows_set_fs. by apply subseteq_preserves.
  - rewrite (MkdirAll_Fail _ _ _ _ _ H). apply grows_refl.
Qed.

Lemma OpenFile_grows name perm w r w' :
  OpenFile_CREATE_RDWR name perm w = (r, w') -> grows w w'.
Proof.
  destruct r as [f|e]; intros H.
  - destruct (OpenFile_Ok _ _ _ _ _ H) as (_ & _ & _ & [(m & d & _ & ->) | (Hnode & ->)]).
    + apply grows_refl.
    + apply grows_set_fs. apply (insert_file_preserves _ _ _ [] _). by right.
  - rewrite (OpenFile_Fail _ _ _ _ _ H). apply grows_refl.
Qed.

Lemma WriteFile_grows t file r w res w' :
  WriteFile t file r w = (res, w') -> grows w w'.
Proof.
  unfold WriteFile, bind, wrap, defer.
  destruct (MkdirAll _ _ w) as [[[]|e] w1] eqn:Hmk.
  2:{ intros [= _ <-]. by eapply MkdirAll_grows. }
  apply MkdirAll_grows in Hmk.
  destruct (OpenFile_CREATE_RDWR _ _ w1) as [[f|e] w2] eqn:Hop.
  2:{ intros [= _ <-]. eapply grows_trans; [done|]. by eapply OpenFile_grows. }
  apply OpenFile_grows in Hop.
  assert (Hw12 : grows w w2) by by eapply grows_trans.
  unfold io_Copy. destruct (ReadAll r w2) as [e|data].
  - by intros [= _ <-].
  - intros [= _ <-]. rewrite loggedClose_id.
    eapply grows_trans; [done | apply WriteAt0_grows].
Qed.

Lemma Open_Ok name w f w' :
  Open name w = (Ok f, w') ->
  w' = w ∧ Name f = name ∧ resolve w name = inr (at_location f)
  ∧ is_Some (node_at (fs w) (at_location f)).
Proof.
  unfold Open. destruct (resolve w name) as [e|p]; [discriminate|].
  destruct (node_at (fs w) p) eqn:E; [|discriminate].
  intros [= <- <-]. simpl. by rewrite E.
Qed.

Lemma Open_Fail name w e w' :
  Open name w = (Fail e, w') -> w' = w ∧ ∃ c, e = PathError "open" name c.
Proof.
  unfold Open. destruct (resolve w name) as [e1|p]; [intros [= <- <-]; eauto|].
  destruct (node_at (fs w) p); [discriminate | intros [= <- <-]; eauto].
Qed.

Lemma CopyFile_grows t dest src w res w' :
  CopyFile t dest src w = (res, w') -> grows w w'.
Proof.
  unfold CopyFile, bind, wrap, defer.
  destruct (Open src w) as [[f|e] w1] eqn:Hop.
  - apply Open_Ok in Hop as (-> & _).
    destruct (WriteFile _ _ _ w) as [r0 w2] eqn:Hw. intros [= _ <-].
    rewrite loggedClose_id. by eapply WriteFile_grows.
  - apply Open_Fail in Hop as (-> & _). intros [= _ <-]. apply grows_refl.
Qed.

Lemma Copy_entry_grows t f w res w' : Copy_entry t f w = (res, w') -> grows w w'.
Proof.
  unfold Copy_entry. destruct (SourceFile.Content f).
  - apply WriteFile_grows.
  - apply CopyFile_grows.
Qed.

Lemma Copy_grows t files w res w' : Copy t files w = (res, w') -> grows w w'.
Proof. apply for_range_grows. intros x; apply Copy_entry_grows. Qed.

(** C8.  [WriteFile] does not truncate: when the destination is a file
    that exists, a successful [WriteFile] leaves it with the new bytes
    followed by the old bytes past the length of the new ones, so a longer
    old content keeps its tail (and the file its length). *)
Theorem WriteFile_keeps_tail t file data w w' p m old :
  resolve w (filepath.Join (Src t) file) = inr p ->
  node_at (fs w) p = Some (FileNode m old) ->
  WriteFile t file (bytes_Buffer data) w = (Ok tt, w') ->
  node_at (fs w') p = Some (FileNode m (data ++ drop (length data) old))
  ∧ (length data < length old ->
     length (data ++ drop (length data) old) = length old
     ∧ drop (length data) old ≠ [])%nat.
Proof.
  intros Hres Hnode H.
  apply WriteFile_Ok in H as (w1 & w2 & p1 & m1 & old1 & data1 & Hmk & Hres1 & Hne & Hopen & Hread & ->).
  pose proof (MkdirAll_grows _ _ _ _ _ Hmk) as [(Hcwd & _) Hpres].
  pose proof (resolve_preserves _ _ _ _ Hcwd Hpres Hres) as Hres'.
  rewrite Hres' in Hres1. injection Hres1 as <-.
  destruct (MkdirAll_Ok _ _ _ _ Hmk) as (_ & Hsub & _).
  pose proof (node_at_weaken _ _ _ _ Hsub Hnode) as Hnode1.
  injection Hread as <-.
  destruct Hopen as [[Hn _] | [Hn _]]; rewrite Hnode1 in Hn; [|discriminate].
  injection Hn as <- <-. simpl. split.
  - by apply node_at_insert_eq.
  - intros Hlen. split.
    + rewrite length_app, length_drop. lia.
    + intros Hnil. apply (f_equal length) in Hnil. rewrite length_drop in Hnil.
      simpl in Hnil. lia.
Qed.

Lemma WriteFile_keeps_tail_witness :
  node_at (fs (WriteFile example_tree "x" (bytes_Buffer (bytes "HI")) written_world).2)
    ["home"; "d"; "src"; "x"]
  = Some (FileNode mode_0600 (bytes "HIllo world")).
Proof.
  destruct (WriteFile_keeps_tail example_tree "x" (bytes "HI") written_world
              (WriteFile example_tree "x" (bytes_Buffer (bytes "HI")) written_world).2
              ["home"; "d"; "src"; "x"] mode_0600 (bytes "hello world")) as [H _].
  - by_computation.
  - by_computation.
  - by_computation.
  - exact H.
Defined.

(** ** WriteFile under the source root *)

Lemma walk_visits f cur es1 es2 p :
  walk f cur (es1 ++ es2) = inr p -> es2 ≠ [] ->
  ∃ m, node_at f (locate cur es1) = Some (DirNode m).
Proof.
  rewrite walk_app. destruct (walk f cur es1) as [e|q] eqn:E; [done|].
  apply walk_locate in E as ->. destruct es2 as [|e rest]; [done|]. simpl.
  destruct (node_at f (locate cur es1)) as [[m|m d]|]; [eauto | done..].
Qed.

(** C7.  A successful [WriteFile] leaves a regular file where
    [Join(t.Src, file)] leads and the directory [Dir] of that path exists;
    a file that was not there before has mode 0600 and holds exactly the
    bytes given; whatever else is new is a directory with mode 0700, and
    nothing else that was there has changed.  When [file] is a relative
    path made of names, the file is at the source root's location followed
    by the elements of [file], and every directory from the source root
    down to it exists, those that were missing having mode 0700. *)
Theorem WriteFile_creates t file data w w' :
  WriteFile t file (bytes_Buffer data) w = (Ok tt, w') ->
  let full := filepath.Join (Src t) file in
  let p := location_of w full in
  resolve w' full = inr p
  ∧ (∃ m d, node_at (fs w') p = Some (FileNode m d))
  ∧ (node_at (fs w) p = None ->
     node_at (fs w') p = Some (FileNode mode_0600 data))
  ∧ (∃ m, node_at (fs w') (location_of w (filepath.Dir full)) = Some (DirNode m))
  ∧ (∀ q n, q ≠ p -> node_at (fs w) q = None -> node_at (fs w') q = Some n ->
            n = DirNode mode_0700)
  ∧ (∀ q n, q ≠ p -> node_at (fs w) q = Some n -> node_at (fs w') q = Some n)
  ∧ (Forall is_name (filepath.elements file) ->
     let src := location_of w (Src t) in
     p = src ++ filepath.elements file
     ∧ ∀ names rest, filepath.elements file = names ++ rest -> rest ≠ [] ->
         ∃ m, node_at (fs w') (src ++ names) = Some (DirNode m)
              ∧ (node_at (fs w) (src ++ names) = None -> m = mode_0700)).
Proof.
  intros H full p.
  apply WriteFile_Ok in H
    as (w1 & w2 & p1 & m & old & data1 & Hmk & Hres & Hne & Hopen & Hread & ->).
  fold full in Hmk, Hres. injection Hread as <-.
  destruct (MkdirAll_Ok _ _ _ _ Hmk) as (Hw1 & Hsub & Hnew & _ & mdir & Hdir).
  assert (Hcwd : cwd w1 = cwd w) by (by rewrite Hw1).
  assert (Hp1 : p1 = p).
  { by rewrite (resolve_location_of _ _ _ Hres), (location_of_same w w1). }
  subst p1.
  assert (Hpres : preserves (fs w1) (<[p := FileNode m (overwrite data old)]> (fs w1))).
  { eapply insert_file_preserves. destruct Hopen as [[Hn _] | [Hn _]]; eauto. }
  split; [exact (resolve_preserves w1 (set_fs _ w1) _ _ eq_refl Hpres Hres)|].
  split; [exists m, (overwrite data old); simpl; by apply node_at_insert_eq|].
  split; [|split; [|split; [|split]]].
  - intros Hnone. simpl. rewrite node_at_insert_eq by done.
    destruct (node_at_None _ _ Hnone) as [_ Hnone'].
    destruct Hopen as [[Hn _] | (_ & -> & -> & _)].
    + destruct p as [|x l]; [done|]. simpl in Hn.
      specialize (Hnew _ _ Hnone' Hn). discriminate.
    + unfold overwrite. by rewrite drop_nil, app_nil_r.
  - exists mdir. by eapply preserves_dir.
  - intros q n Hq Hnone Hsome. simpl in Hsome.
    rewrite node_at_insert_ne in Hsome by done.
    destruct (node_at_None _ _ Hnone) as [Hqne Hnone'].
    destruct q as [|x l]; [done|]. by eapply Hnew.
  - intros q n Hq Hsome. simpl. rewrite node_at_insert_ne by done.
    by eapply node_at_weaken.
  - intros Hnames src.
    assert (Hp : p = src ++ filepath.elements file) by by apply location_of_Join.
    split; [done|]. intros names rest Hsplit Hrest.
    destruct (Join_elements w1 (Src t) file Hnames) as (pre & Hel & Hjne & Hloc).
    fold full in Hel, Hjne, Hloc.
    unfold resolve in Hres. rewrite bool_decide_eq_false_2 in Hres by done.
    rewrite Hel, Hsplit, app_assoc in Hres.
    destruct (walk_visits _ _ _ _ _ Hres Hrest) as [m1 Hm1].
    assert (Hns : Forall is_name names).
    { rewrite Hsplit in Hnames. by apply Forall_app in Hnames as [? _]. }
    rewrite locate_app, Hloc, locate_names, (location_of_same w w1) in Hm1 by done.
    fold src in Hm1. exists m1. split.
    + by eapply preserves_dir.
    + intros Hnone. destruct (node_at_None _ _ Hnone) as [Hq Hnone'].
      destruct (src ++ names) as [|x l] eqn:Eq; [done|]. simpl in Hm1.
      specialize (Hnew _ _ Hnone' Hm1). congruence.
Qed.

Lemma WriteFile_creates_witness :
  let w := (NewTemporary "d" false example_world).2 in
  let w' := (WriteFile example_tree "a/b/c.txt" (bytes_Buffer (bytes "hello")) w).2 in
  Stat "d/src/a/b/c.txt" w' = inr (FileNode mode_0600 (bytes "hello"))
  ∧ node_at (fs w') ["home"; "d"; "src"; "a"] = Some (DirNode mode_0700)
  ∧ node_at (fs w') ["home"; "d"; "src"; "a"; "b"] = Some (DirNode mode_0700)
  ∧ node_at (fs w') ["home"; "d"; "src"; "a"; "b"; "c.txt"]
    = Some (FileNode mode_0600 (bytes "hello")).
Proof.
  intros w w'.
  destruct (WriteFile_creates example_tree "a/b/c.txt" (bytes "hello") w w')
    as (_ & _ & Hfile & _ & _ & _ & Hnames); [by_computation|].
  destruct Hnames as [_ Hdirs]; [repeat constructor; discriminate|].
  destruct (Hdirs ["a"] ["b"; "c.txt"] eq_refl ltac:(discriminate)) as (m1 & H1 & Hm1).
  destruct (Hdirs ["a"; "b"] ["c.txt"] eq_refl ltac:(discriminate)) as (m2 & H2 & Hm2).
  rewrite (Hm1 ltac:(by_computation)) in H1.
  rewrite (Hm2 ltac:(by_computation)) in H2.
  split; [by_computation|]. split; [exact H1|]. split; [exact H2|].
  apply Hfile. by_computation.
Defined.

(** ** Copy *)

Lemma for_range_app {A} (l1 l2 : list A) (body : A -> IO unit) w :
  for_range (l1 ++ l2) body w
  = bind (for_range l1 body) (fun _ => for_range l2 body) w.
Proof.
  revert w. induction l1 as [|x l1 IH]; intros w; simpl; [done|].
  unfold bind in *. destruct (body x w) as [[[]|e] w1]; [apply IH | done].
Qed.

(** C10.  For an entry anywhere in the list, [Copy] looks only at whether
    [Content] is nil.  An entry with content is written with [WriteFile],
    whatever its [Src]; an entry without content is copied with [CopyFile]
    from its [Src]; so an entry with neither fails, with the error of
    opening the empty path, and leaves the world as the entries before it
    left it. *)
Theorem Copy_dispatch t pre src dest rest w :
  (∀ content,
     Copy t (pre ++ SourceFile.mk src dest (Some content) :: rest) w
     = bind (Copy t pre)
         (fun _ => bind (WriteFile t dest (bytes_Buffer content))
                     (fun _ => Copy t rest)) w)
  ∧ (∀ src' content,
       Copy t (pre ++ SourceFile.mk src dest (Some content) :: rest) w
       = Copy t (pre ++ SourceFile.mk src' dest (Some content) :: rest) w)
  ∧ Copy t (pre ++ SourceFile.mk src dest None :: rest) w
    = bind (Copy t pre)
        (fun _ => bind (CopyFile t dest src) (fun _ => Copy t rest)) w
  ∧ (∀ w1, Copy t pre w = (Ok tt, w1) ->
       Copy t (pre ++ SourceFile.mk "" dest None :: rest) w
       = (Fail (Errorf "failed to open : open : no such file or directory"), w1)).
Proof.
  unfold Copy. split; [|split; [|split]].
  - intros content. by rewrite for_range_app.
  - intros src' content. by rewrite !for_range_app.
  - by rewrite for_range_app.
  - intros w1 Hpre. rewrite for_range_app. unfold bind at 1. by rewrite Hpre.
Qed.

Lemma Copy_dispatch_witness :
  let w := (NewTemporary "d" false example_world).2 in
  let one := SourceFile.mk "" "a/one.go" (Some (bytes "package a")) in
  Copy example_tree [one; SourceFile.mk "" "a/two.go" None; one] w
  = (Fail (Errorf "failed to open : open : no such file or directory"),
     (Copy example_tree [one] w).2).
Proof.
  intros w one.
  destruct (Copy_dispatch example_tree [one] "" "a/two.go" [one] w) as (_ & _ & _ & H).
  apply H. by_computation.
Defined.

(** ** Copy stops at the first failure *)

Lemma written_grows t f w w' : grows w w' -> written t f w -> written t f w'.
Proof.
  intros [(Hcwd & _) Hp] (p & m & d & Hres & Hnode).
  destruct (preserves_file _ _ _ _ _ Hp Hnode) as [d' Hd'].
  exists p, m, d'. split; [by eapply resolve_preserves | done].
Qed.

Lemma WriteFile_written t file r w w' :
  WriteFile t file r w = (Ok tt, w') ->
  ∃ p m d, resolve w' (filepath.Join (Src t) file) = inr p
           ∧ node_at (fs w') p = Some (FileNode m d).
Proof.
  intros H.
  pose proof (WriteFile_grows _ _ _ _ _ _ H) as Hg.
  apply WriteFile_Ok in H as (w1 & w2 & p & m & old & data & Hmk & Hres & Hne & Hopen & _ & ->).
  exists p, m, (overwrite data old). split.
  - eapply resolve_preserves; [| |exact Hres]; [done|].
    simpl. eapply insert_file_preserves.
    destruct Hopen as [[Hn _] | [Hn _]]; eauto.
  - simpl. by apply node_at_insert_eq.
Qed.

Lemma Copy_entry_written t f w w' :
  Copy_entry t f w = (Ok tt, w') -> written t f w'.
Proof.
  unfold Copy_entry, written. destruct (SourceFile.Content f) as [content|].
  - apply WriteFile_written.
  - unfold CopyFile. intros H. apply bind_Ok in H as (input & w1 & Hop & H).
    apply wrap_Ok in Hop. unfold defer in H.
    destruct (WriteFile _ _ _ w1) as [r0 w2] eqn:Hw. rewrite loggedClose_id in H.
    injection H as -> ->. by eapply WriteFile_written.
Qed.

Lemma Copy_Ok_written t files w w' :
  Copy t files w = (Ok tt, w') -> ∀ g, g ∈ files -> written t g w'.
Proof.
  unfold Copy. revert w. induction files as [|f rest IH]; intros w; simpl.
  - intros _ g Hg. by apply elem_of_nil in Hg.
  - intros H. apply bind_Ok in H as ([] & w1 & Hf & H).
    intros g Hg. apply elem_of_cons in Hg as [->|Hg].
    + eapply written_grows; [exact (Copy_grows t rest w1 (Ok tt) w' H) | by eapply Copy_entry_written].
    + by eapply IH.
Qed.

(** C5.  When [Copy] fails, the list splits at a first failing entry: the
    entries before it went through, in order; the failing entry's error and
    the world it left are what [Copy] returns, whatever follows it in the
    list (nothing after it is tried); and the destinations of the entries
    before it are files on disk, before and after the failure (nothing is
    rolled back).  When [Copy] succeeds, every entry has been written. *)
Theorem Copy_stops_at_first_failure t files w :
  (∀ e w', Copy t files w = (Fail e, w') ->
     ∃ pre f post w1,
       files = pre ++ f :: post
       ∧ Copy t pre w = (Ok tt, w1)
       ∧ Copy_entry t f w1 = (Fail e, w')
       ∧ (∀ g, g ∈ pre -> written t g w1 ∧ written t g w')
       ∧ (∀ post', Copy t (pre ++ f :: post') w = (Fail e, w')))
  ∧ (∀ w', Copy t files w = (Ok tt, w') -> ∀ g, g ∈ files -> written t g w').
Proof.
  split; [|apply Copy_Ok_written].
  intros e w' H. unfold Copy in H.
  apply for_range_Fail in H as (pre & f & post & w1 & -> & Hpre & Hf).
  exists pre, f, post, w1. repeat (split; [done|]). split.
  - intros g Hg. pose proof (Copy_Ok_written _ _ _ _ Hpre g Hg) as Hw.
    split; [done|]. eapply written_grows; [by eapply Copy_entry_grows | done].
  - intros post'. by eapply for_range_app_Fail.
Qed.

Lemma Copy_stops_at_first_failure_witness :
  let w := (NewTemporary "d" false example_world).2 in
  let r := Copy example_tree example_files w in
  r.1 = Fail (Errorf "failed to open /nonexistent: open /nonexistent: no such file or directory")
  ∧ written example_tree (SourceFile.mk "" "a/one.go" (Some (bytes "package a"))) r.2
  ∧ Stat "d/src/a/one.go" r.2 = inr (FileNode mode_0600 (bytes "package a"))
  ∧ Stat "d/src/a/two.go" r.2 = inl ENOENT
  ∧ Stat "d/src/a/three.go" r.2 = inl ENOENT.
Proof.
  intros w r.
  destruct (Copy_stops_at_first_failure example_tree example_files w) as [H _].
  destruct (H (Errorf "failed to open /nonexistent: open /nonexistent: no such file or directory")
              r.2 ltac:(by_computation))
    as (pre & f & post & w1 & Hsplit & Hpre & Hf & Hwritten & _).
  split; [by_computation|]. split.
  - apply Hwritten. destruct pre as [|g pre].
    + exfalso. injection Hsplit as <- _. injection Hpre as <-.
      revert Hf. vm_compute. discriminate.
    + injection Hsplit as <- _. by left.
  - split; [by_computation|]. split; by_computation.
Defined.

(** ** ioutil.TempDir *)

Lemma Mkdir_Ok name perm w w' :
  Mkdir name perm w = (Ok tt, w') ->
  ∃ p, resolve w name = inr p ∧ node_at (fs w) p = None
       ∧ w' = set_fs (<[p := DirNode perm]> (fs w)) w.
Proof.
  unfold Mkdir. destruct (resolve w name) as [e|p]; [discriminate|].
  destruct (node_at (fs w) p) eqn:E; [discriminate|]. intros [= <-]. eauto.
Qed.

Lemma Mkdir_Fail name perm w e w' : Mkdir name perm w = (Fail e, w') -> w' = w.
Proof.
  unfold Mkdir. destruct (resolve w name) as [e1|p]; [by intros [= _ <-]|].
  destruct (node_at (fs w) p); [by intros [= _ <-] | discriminate].
Qed.

Lemma TempDir_loop_Ok n dir pfx last w name w' :
  TempDir_loop n dir pfx last w = (Ok name, w') ->
  ∃ w0, fs w0 = fs w ∧ same_process w w0 ∧ Mkdir name mode_0700 w0 = (Ok tt, w').
Proof.
  revert last w. induction n as [|n IH]; intros last w; simpl; [discriminate|].
  unfold bind, nextSuffix.
  set (w0 := set_next_suffix _ w). set (try := filepath.Join _ _).
  destruct (Mkdir try mode_0700 w0) as [[[]|e] w1] eqn:E.
  - intros [= <- <-]. exists w0. by split.
  - pose proof (Mkdir_Fail _ _ _ _ _ E) as ->.
    destruct e as [op p [] | msg]; try discriminate.
    + destruct (Stat dir w0) as [[]|]; discriminate.
    + intros H. destruct (IH _ _ H) as (w2 & Hfs & Hsame & Hmk).
      exists w2. split; [done|]. split; [|done].
      destruct Hsame as (? & ? & ?). by split_and!.
Qed.

(** A path that resolves to a place where nothing is does not end in ".". *)
Lemma resolve_fresh_not_dot w name p :
  resolve w name = inr p -> node_at (fs w) p = None -> endsWithDot name = false.
Proof.
  unfold resolve, endsWithDot. case_bool_decide; [done|]. intros Hwalk Hnone.
  apply bool_decide_eq_false_2. intros Hlast.
  apply last_Some in Hlast as [es Hes]. rewrite Hes, walk_app in Hwalk.
  destruct (walk (fs w) (start w name) es) as [e|q]; [done|]. simpl in Hwalk.
  destruct (node_at (fs w) q) as [[m|m d]|] eqn:E; [|done..].
  injection Hwalk as <-. unfold step in Hnone.
  rewrite bool_decide_eq_true_2 in Hnone by auto. congruence.
Qed.

Lemma TempDir_Ok dir0 pfx w dir w1 :
  TempDir dir0 pfx w = (Ok dir, w1) ->
  ∃ p, dir ≠ "" ∧ endsWithDot dir = false ∧ p ≠ []
       ∧ resolve w1 dir = inr p
       ∧ node_at (fs w) p = None
       ∧ node_at (fs w1) p = Some (DirNode mode_0700)
       ∧ grows w w1.
Proof.
  unfold TempDir. intros H.
  apply TempDir_loop_Ok in H as (w0 & Hfs & (Hcwd & Henv & Hgo) & Hmk).
  apply Mkdir_Ok in Hmk as (p & Hres & Hnone & ->).
  destruct (node_at_None _ _ Hnone) as [Hne Hnone'].
  assert (Hpres : preserves (fs w0) (<[p := DirNode mode_0700]> (fs w0)))
    by (apply subseteq_preserves; by apply insert_subseteq).
  exists p. split.
  { intros ->. unfold resolve in Hres. by rewrite bool_decide_eq_true_2 in Hres. }
  split; [by eapply resolve_fresh_not_dot|]. split; [done|]. split.
  { eapply resolve_preserves; [| |exact Hres]; done. }
  split; [by rewrite <- Hfs|]. split; [by apply node_at_insert_eq|].
  split; [done|]. simpl. by rewrite <- Hfs.
Qed.

(** ** Removing the allocated directory *)

Lemma walk_removed f p cur es q :
  walk f cur es = inr q ->
  walk (filter (fun kv => ¬ below p kv.1) f) cur es = inr q
  ∨ walk (filter (fun kv => ¬ below p kv.1) f) cur es = inl ENOENT.
Proof.
  revert cur. induction es as [|e rest IH]; intros cur; simpl; [auto|].
  destruct (node_at f cur) as [[m|m d]|] eqn:E; [|done..]. intros H.
  destruct cur as [|c cur]; [by apply IH|].
  simpl in E |- *. destruct (decide (below p (c :: cur))) as [Hb|Hb].
  - right. rewrite (proj2 (map_lookup_filter_None _ _ _)); [done|].
    right. intros x _ Hx. by apply Hx.
  - rewrite (proj2 (map_lookup_filter_Some _ _ _ _) (conj E Hb)). by apply IH.
Qed.

Lemma Stat_ext w w' name :
  fs w' = fs w -> cwd w' = cwd w -> Stat name w' = Stat name w.
Proof. unfold Stat. intros Hfs Hcwd. by rewrite (resolve_ext w w'), Hfs. Qed.

Lemma RemoveAll_gone path w p n :
  path ≠ "" -> endsWithDot path = false -> p ≠ [] ->
  resolve w path = inr p -> node_at (fs w) p = Some n ->
  (∀ q, below p q -> fs (RemoveAll path w).2 !! q = None)
  ∧ Stat path (RemoveAll path w).2 = inl ENOENT.
Proof.
  intros Hne Hdot Hp Hres Hnode.
  destruct (RemoveAll_removes _ _ _ _ Hne Hdot Hres Hnode) as (_ & Hgone & _).
  assert (Hq : ∀ q, below p q -> q ≠ []).
  { intros q Hq ->. by apply prefix_nil_inv in Hq. }
  split; [intros q Hb; apply Hgone; auto|].
  assert (Hp' : node_at (fs (RemoveAll path w).2) p = None).
  { destruct p; [done|]. simpl. apply Hgone; [done|done]. }
  revert Hp'. unfold RemoveAll, Stat, resolve in *.
  rewrite bool_decide_eq_false_2 in * by done. rewrite Hdot, Hres, Hnode. simpl.
  intros Hp'. unfold start in *. simpl.
  destruct (walk_removed _ p _ _ _ Hres) as [-> | ->]; [by rewrite Hp' | done].
Qed.

Lemma NewTemporary_grows_Fail dir upd w e w' :
  NewTemporary dir upd w = (Fail e, w') -> grows w w'.
Proof.
  intros H. apply NewTemporary_Fail in H as [H | (_ & H & _)];
    by eapply NewTemporary_dirs_grows.
Qed.

(** C4.  When [NewTemporaryWithFiles] fails after [ioutil.TempDir] has made
    the directory, whether in [NewTemporary] or in [Copy], nothing at or
    below the directory is left, a later [os.Stat] of it finds nothing, and
    GOPATH, in the environment and in the cache, is what it was before the
    call. *)
Theorem NewTemporaryWithFiles_cleans_up pfx files w dir w1 e w' :
  TempDir "" pfx w = (Ok dir, w1) ->
  NewTemporaryWithFiles pfx files w = (Fail e, w') ->
  ∃ p,
    resolve w1 dir = inr p
    ∧ node_at (fs w) p = None
    ∧ node_at (fs w1) p = Some (DirNode mode_0700)
    ∧ (∀ q, below p q -> fs w' !! q = None)
    ∧ Stat dir w' = inl ENOENT
    ∧ GOPATH w' = GOPATH w
    ∧ Getenv "GOPATH" w' = Getenv "GOPATH" w
    ∧ ((∃ w2, NewTemporary dir true w1 = (Fail e, w2))
       ∨ (∃ t w2 w3, NewTemporary dir true w1 = (Ok t, w2)
                     ∧ Copy (set_deleteDir true t) files w2 = (Fail e, w3))).
Proof.
  intros Htmp H. unfold NewTemporaryWithFiles in H.
  apply bind_Fail in H as [H | (dir' & w1' & Htmp' & H)]; [congruence|].
  rewrite Htmp in Htmp'. injection Htmp' as <- <-.
  destruct (TempDir_Ok _ _ _ _ _ Htmp)
    as (p & Hne & Hdot & Hp & Hres & Hnone & Hnode & (_ & Henv1 & Hgo1) & _).
  exists p. do 3 (split; [done|]).
  apply bind_Fail in H as [H | (t & w2 & Hnew & H)].
  - (* NewTemporary failed *)
    unfold on_error in H.
    destruct (NewTemporary dir true w1) as [[t|e1] wa] eqn:Hnew; [discriminate|].
    injection H as -> <-.
    pose proof (NewTemporary_grows_Fail _ _ _ _ _ Hnew) as [(Hcwd & Henv & Hgo) Hpres].
    pose proof (resolve_preserves _ _ _ _ Hcwd Hpres Hres) as Hresa.
    pose proof (preserves_dir _ _ _ _ Hpres Hnode) as Hnodea.
    destruct (RemoveAll_gone _ _ _ _ Hne Hdot Hp Hresa Hnodea) as [Hgone Hstat].
    destruct (RemoveAll dir wa) as [r wb] eqn:Hrm.
    apply RemoveAll_same_process in Hrm as (_ & Henvb & Hgob). simpl in *.
    split; [done|]. split; [done|]. split; [congruence|].
    split; [unfold Getenv; congruence|]. left; eauto.
  - (* Copy failed *)
    unfold on_error in Hnew.
    destruct (NewTemporary dir true w1) as [[t1|e1] wa] eqn:Hnew1; [|discriminate].
    injection Hnew as -> ->.
    apply bind_Fail in H as [H | ([] & w4 & _ & H)]; [|discriminate].
    unfold on_error in H.
    destruct (Copy (set_deleteDir true t) files w2) as [[[]|e2] w3] eqn:Hcopy; [discriminate|].
    injection H as -> <-.
    destruct (NewTemporary_Ok_true _ _ _ _ Hnew1) as (Hpath & Hupd & Ho1 & Ho2 & Hcwd2 & Hp2).
    pose proof (Copy_grows _ _ _ _ _ Hcopy) as [(Hcwd3 & _) Hp3].
    assert (Hres3 : resolve w3 dir = inr p).
    { eapply resolve_preserves; [done | done |].
      by eapply resolve_preserves. }
    assert (Hnode3 : node_at (fs w3) p = Some (DirNode mode_0700)).
    { eapply preserves_dir; [done|]. by eapply preserves_dir. }
    destruct (Reset_delete (set_deleteDir true t) w3 eq_refl)
      as (w0 & Hfs0 & Hcwd0 & Hfs & Hcwd).
    simpl in Hfs. rewrite Hpath in Hfs.
    rewrite <- (resolve_ext w3 w0) in Hres3 by done. rewrite <- Hfs0 in Hnode3.
    destruct (RemoveAll_gone _ _ _ _ Hne Hdot Hp Hres3 Hnode3) as [Hgone Hstat].
    destruct (Reset_GOPATH (set_deleteDir true t) w3 Hupd) as [Hg1 Hg2].
    simpl in Hg1, Hg2.
    split; [intros q Hq; rewrite Hfs; by apply Hgone|].
    split.
    { rewrite <- Hstat. apply Stat_ext; [done|].
      destruct (RemoveAll dir w0) as [r wb] eqn:Hrm.
      apply RemoveAll_same_process in Hrm as (Hc & _). simpl. congruence. }
    split; [congruence|]. split; [unfold Getenv in *; congruence|].
    right. eauto.
Qed.

Lemma NewTemporaryWithFiles_cleans_up_witness :
  let r := NewTemporaryWithFiles "pre" example_files example_world in
  r.1 = Fail (Errorf "failed to open /nonexistent: open /nonexistent: no such file or directory")
  ∧ Stat "/tmp/pre1000" (TempDir "" "pre" example_world).2 = inr (DirNode mode_0700)
  ∧ Stat "/tmp/pre1000" r.2 = inl ENOENT
  ∧ GOPATH r.2 = "/go" ∧ Getenv "GOPATH" r.2 = "/go".
Proof.
  intros r.
  destruct (NewTemporaryWithFiles_cleans_up "pre" example_files example_world
              "/tmp/pre1000" (TempDir "" "pre" example_world).2
              (Errorf "failed to open /nonexistent: open /nonexistent: no such file or directory")
              r.2)
    as (p & _ & _ & _ & _ & Hstat & Hgo & Henv & _).
  - by_computation.
  - by_computation.
  - split; [by_computation|]. split; [by_computation|].
    split; [exact Hstat|]. split; [exact Hgo | exact Henv].
Defined.

(** ** How WriteFile and CopyFile fail *)

Lemma node_at_lookup f p : p ≠ [] -> node_at f p = f !! p.
Proof. by destruct p. Qed.

Lemma WriteFile_Fail t file r w e w' :
  WriteFile t file r w = (Fail e, w') ->
  let full := filepath.Join (Src t) file in
  let dir := filepath.Dir full in
  (∃ c, MkdirAll dir mode_0700 w = (Fail c, w') ∧ w' = w
        ∧ e = Errorf ("failed to create dir " +:+ dir +:+ ": " +:+ Error c))
  ∨ (∃ w1 c, MkdirAll dir mode_0700 w = (Ok tt, w1)
        ∧ OpenFile_CREATE_RDWR full mode_0600 w1 = (Fail c, w') ∧ w' = w1
        ∧ e = Errorf ("couldn't open " +:+ full +:+ " for writing: " +:+ Error c))
  ∨ (∃ w1 f c, MkdirAll dir mode_0700 w = (Ok tt, w1)
        ∧ OpenFile_CREATE_RDWR full mode_0600 w1 = (Ok f, w')
        ∧ ReadAll r w' = inl c
        ∧ e = Errorf ("copy failed: " +:+ Error c)).
Proof.
  intros H full dir. unfold WriteFile in H. fold full in H. fold dir in H.
  unfold bind, wrap, defer in H.
  destruct (MkdirAll dir mode_0700 w) as [[[]|c] w1] eqn:Hmk.
  2:{ injection H as <- <-. left. exists c.
      pose proof (MkdirAll_Fail _ _ _ _ _ Hmk) as ->. done. }
  destruct (OpenFile_CREATE_RDWR full mode_0600 w1) as [[f|c] w2] eqn:Hop.
  2:{ injection H as <- <-. right. left. exists w1, c.
      pose proof (OpenFile_Fail _ _ _ _ _ Hop) as ->. done. }
  right. right. unfold io_Copy in H.
  destruct (ReadAll r w2) as [c|data] eqn:Hrd; [|discriminate].
  rewrite loggedClose_id in H. injection H as <- <-. by exists w1, f, c.
Qed.



(** X2.  When the source cannot be found ([os.Stat] of it fails),
    [CopyFile] returns "failed to open <src>: open <src>: <cause>" and
    changes nothing: no directory is made for the destination, because the
    source is opened first. *)
Theorem CopyFile_missing_source t dest src w e :
  Stat src w = inl e ->
  CopyFile t dest src w
  = (Fail (Errorf ("failed to open " +:+ src +:+ ": " +:+ Error (PathError "open" src e))), w).
Proof.
  unfold Stat, CopyFile, bind, wrap, Open.
  destruct (resolve w src) as [c|p]; [by intros [= ->]|].
  destruct (node_at (fs w) p); [discriminate | by intros [= <-]].
Qed.

Lemma CopyFile_missing_source_witness :
  CopyFile example_tree "a/b" "/nonexistent/f" example_world
  = (Fail (Errorf "failed to open /nonexistent/f: open /nonexistent/f: no such file or directory"),
     example_world).
Proof.
  apply (CopyFile_missing_source example_tree "a/b" "/nonexistent/f" example_world ENOENT).
  by_computation.
Defined.

Lemma Stat_inr name w n :
  Stat name w = inr n -> ∃ p, resolve w name = inr p ∧ node_at (fs w) p = Some n.
Proof.
  unfold Stat. destruct (resolve w name) as [c|p]; [discriminate|].
  destruct (node_at (fs w) p) eqn:E; [|discriminate]. intros [= ->]. eauto.
Qed.

Lemma CopyFile_Open t dest src w p n :
  resolve w src = inr p -> node_at (fs w) p = Some n ->
  CopyFile t dest src w = WriteFile t dest (os_File (mkFile src p)) w.
Proof.
  intros Hres Hn. unfold CopyFile, bind, wrap, Open, defer. rewrite Hres, Hn.
  destruct (WriteFile _ _ _ w) as [r w']. by rewrite loggedClose_id.
Qed.

(** X3.  A successful [CopyFile] from a regular file leaves the source
    with its mode and bytes; a destination that did not exist is a file
    with mode 0600 holding exactly the bytes of the source, and one that
    existed keeps its mode and holds the source's bytes followed by its own
    bytes past their length. *)
Theorem CopyFile_copies t dest src w w' s m data :
  resolve w src = inr s ->
  node_at (fs w) s = Some (FileNode m data) ->
  CopyFile t dest src w = (Ok tt, w') ->
  let p := location_of w (filepath.Join (Src t) dest) in
  node_at (fs w') s = Some (FileNode m data)
  ∧ (node_at (fs w) p = None -> node_at (fs w') p = Some (FileNode mode_0600 data))
  ∧ (∀ m' old, node_at (fs w) p = Some (FileNode m' old) ->
       node_at (fs w') p = Some (FileNode m' (data ++ drop (length data) old))).
Proof.
  intros Hres Hs H p. rewrite (CopyFile_Open _ _ _ _ _ _ Hres Hs) in H.
  destruct (WriteFile_Ok _ _ _ _ _ H) as (w1 & w2 & p' & m0 & old & data' & Hmk & Hp & Hne & Hopen & Hrd & ->).
  destruct (MkdirAll_Ok _ _ _ _ Hmk) as (Hw1 & Hsub & Hnew & _).
  assert (cwd w1 = cwd w) as Hcwd by (rewrite Hw1; reflexivity).
  assert (p' = p) as ->.
  { apply resolve_location_of in Hp. rewrite Hp. by apply location_of_same. }
  assert (node_at (fs w1) s = Some (FileNode m data)) as Hs1
    by (eapply node_at_weaken; eauto).
  assert (data' = data) as ->.
  { simpl in Hrd. destruct Hopen as [(_ & ->) | (Hnone & _ & _ & ->)].
    - rewrite Hs1 in Hrd. by injection Hrd as <-.
    - simpl in Hrd. rewrite node_at_insert_ne in Hrd by congruence.
      rewrite Hs1 in Hrd. by injection Hrd as <-. }
  simpl. split; [|split].
  - destruct (decide (s = p)) as [->|Hsp].
    + rewrite node_at_insert_eq by done.
      destruct Hopen as [(Hold & _) | (Hnone & _)]; [|congruence].
      rewrite Hs1 in Hold. injection Hold as <- <-.
      unfold overwrite. by rewrite drop_all, app_nil_r.
    + by rewrite node_at_insert_ne.
  - intros Hnone. rewrite node_at_insert_eq by done.
    destruct Hopen as [(Hold & _) | (_ & -> & -> & _)].
    + apply node_at_None in Hnone as [_ Hnone]. rewrite node_at_lookup in Hold by done.
      by pose proof (Hnew _ _ Hnone Hold).
    + unfold overwrite. by rewrite drop_nil, app_nil_r.
  - intros m' old' Hold'. rewrite node_at_insert_eq by done.
    pose proof (node_at_weaken _ _ _ _ Hsub Hold') as Hold1.
    destruct Hopen as [(Hold & _) | (Hnone & _)]; [|congruence].
    rewrite Hold1 in Hold. by injection Hold as <- <-.
Qed.

Lemma CopyFile_copies_witness :
  let w' := (CopyFile example_tree "sub/y" "d/src/x" written_world).2 in
  node_at (fs w') ["home"; "d"; "src"; "x"] = Some (FileNode mode_0600 (bytes "hello world"))
  ∧ node_at (fs w') ["home"; "d"; "src"; "sub"; "y"]
    = Some (FileNode mode_0600 (bytes "hello world")).
Proof.
  intros w'.
  destruct (CopyFile_copies example_tree "sub/y" "d/src/x" written_world w'
              ["home"; "d"; "src"; "x"] mode_0600 (bytes "hello world"))
    as (Hsrc & Hnew & _); [by_computation..|].
  split; [exact Hsrc|]. apply Hnew. by_computation.
Defined.

(** X4.  [CopyFile] from a directory never succeeds.  Every node that
    existed is still there unchanged; when the failure is the one of the
    copy step ("copy failed: ..."), the destination has already been
    opened: it is a regular file, empty with mode 0600 when it did not exist
    before. *)
Theorem CopyFile_directory t dest src w m r w' :
  Stat src w = inr (DirNode m) ->
  CopyFile t dest src w = (r, w') ->
  ∃ e, r = Fail e
    ∧ (∀ q n, fs w !! q = Some n -> fs w' !! q = Some n)
    ∧ ∀ c, e = Errorf ("copy failed: " +:+ Error c) ->
        let p := location_of w (filepath.Join (Src t) dest) in
        ∃ m' d, node_at (fs w') p = Some (FileNode m' d)
                ∧ (node_at (fs w) p = None -> m' = mode_0600 ∧ d = []).
Proof.
  intros Hst. apply Stat_inr in Hst as (s & Hres & Hs).
  rewrite (CopyFile_Open _ _ _ _ _ _ Hres Hs). intros H.
  destruct r as [[]|e].
  - exfalso.
    destruct (WriteFile_Ok _ _ _ _ _ H) as (w1 & w2 & p' & m0 & old & data' & Hmk & Hp & Hne & Hopen & Hrd & _).
    destruct (MkdirAll_Ok _ _ _ _ Hmk) as (Hw1 & Hsub & Hnew & _).
    pose proof (node_at_weaken _ _ _ _ Hsub Hs) as Hs1.
    simpl in Hrd. destruct Hopen as [(_ & ->) | (Hnone & _ & _ & ->)].
    + by rewrite Hs1 in Hrd.
    + simpl in Hrd. rewrite node_at_insert_ne in Hrd by congruence. by rewrite Hs1 in Hrd.
  - exists e. split; [done|].
    destruct (WriteFile_Fail _ _ _ _ _ _ H)
      as [(c & _ & -> & ->) | [(w1 & c & Hmk & Hop & <- & ->) | (w1 & f & c & Hmk & Hop & Hrd & ->)]].
    + split; [done|]. intros c' [=].
    + destruct (MkdirAll_Ok _ _ _ _ Hmk) as (_ & Hsub & _).
      split; [intros q n Hq; by eapply lookup_weaken|]. intros c' [=].
    + destruct (MkdirAll_Ok _ _ _ _ Hmk) as (Hw1 & Hsub & Hnew & _).
      assert (cwd w1 = cwd w) as Hcwd by (rewrite Hw1; reflexivity).
      destruct (OpenFile_Ok _ _ _ _ _ Hop) as (_ & Hp & Hne & Hopen).
      apply resolve_location_of in Hp. rewrite (location_of_same w w1) in Hp by done.
      rewrite Hp in *.
      destruct Hopen as [(m' & d & Hold & ->) | (Hnone & ->)].
      * split; [intros q n Hq; by eapply lookup_weaken|]. intros _ _ p.
        exists m', d. split; [done|]. intros Hnone.
        apply node_at_None in Hnone as [_ Hnone]. rewrite node_at_lookup in Hold by done.
        by pose proof (Hnew _ _ Hnone Hold).
      * split.
        { intros q n Hq. simpl. eapply lookup_weaken; [exact Hq|].
          etrans; [exact Hsub|]. apply insert_subseteq.
          by apply node_at_None in Hnone as [_ Hnone]. }
        intros _ _ p. exists mode_0600, []. simpl.
        by rewrite node_at_insert_eq.
Qed.

Lemma CopyFile_directory_witness :
  let r := CopyFile example_tree "copy" "/tmp" populated_world in
  ∃ e, r.1 = Fail e ∧ ∀ q n, fs populated_world !! q = Some n -> fs r.2 !! q = Some n.
Proof.
  intros r.
  destruct (CopyFile_directory example_tree "copy" "/tmp" populated_world mode_0755 r.1 r.2)
    as (e & He & Hkeep & _); [by_computation | apply surjective_pairing |].
  by exists e.
Defined.

(** ** What a successful WriteFile leaves *)

Lemma WriteFile_Ok_content t file r w w' :
  WriteFile t file r w = (Ok tt, w') ->
  let p := location_of w (filepath.Join (Src t) file) in
  ∃ w2 data,
    ReadAll r w2 = inr data
    ∧ (node_at (fs w) p = None -> node_at (fs w') p = Some (FileNode mode_0600 data))
    ∧ (∀ m old, node_at (fs w) p = Some (FileNode m old) ->
         node_at (fs w') p = Some (FileNode m (overwrite data old))).
Proof.
  intros H p.
  destruct (WriteFile_Ok _ _ _ _ _ H)
    as (w1 & w2 & p' & m0 & old & data & Hmk & Hp & Hne & Hopen & Hrd & ->).
  destruct (MkdirAll_Ok _ _ _ _ Hmk) as (Hw1 & Hsub & Hnew & _).
  assert (cwd w1 = cwd w) as Hcwd by (rewrite Hw1; reflexivity).
  assert (p' = p) as ->.
  { apply resolve_location_of in Hp. rewrite Hp. by apply location_of_same. }
  exists w2, data. split; [done|]. simpl. rewrite node_at_insert_eq by done. split.
  - intros Hnone. destruct Hopen as [(Hold & _) | (_ & -> & -> & _)].
    + apply node_at_None in Hnone as [_ Hnone]. rewrite node_at_lookup in Hold by done.
      by pose proof (Hnew _ _ Hnone Hold).
    + unfold overwrite. by rewrite drop_nil, app_nil_r.
  - intros m' old' Hold'. pose proof (node_at_weaken _ _ _ _ Hsub Hold') as Hold1.
    destruct Hopen as [(Hold & _) | (Hnone & _)]; [|congruence].
    rewrite Hold1 in Hold. by injection Hold as <- <-.
Qed.

(** X5.  When the template fails, [GenerateFile] returns "failed to
    generate: <cause>" and changes nothing.  When it renders and
    [GenerateFile] succeeds, a destination that did not exist holds exactly
    the rendered bytes with mode 0600, and one that existed holds them
    followed by its old bytes past their length. *)
Theorem GenerateFile_renders {A} t file (tpl : A -> error + list Byte.byte) args w :
  (∀ err, tpl args = inl err ->
     GenerateFile t file tpl args w
     = (Fail (Errorf ("failed to generate: " +:+ Error err)), w))
  ∧ (∀ buf w', tpl args = inr buf ->
       GenerateFile t file tpl args w = (Ok tt, w') ->
       let p := location_of w (filepath.Join (Src t) file) in
       (node_at (fs w) p = None -> node_at (fs w') p = Some (FileNode mode_0600 buf))
       ∧ (∀ m old, node_at (fs w) p = Some (FileNode m old) ->
            node_at (fs w') p = Some (FileNode m (buf ++ drop (length buf) old)))).
Proof.
  unfold GenerateFile. split.
  - by intros err ->.
  - intros buf w' Heq. rewrite Heq. intros H.
    destruct (WriteFile_Ok_content _ _ _ _ _ H) as (w2 & data & [= <-] & Hnew & Hold).
    split; [exact Hnew | exact Hold].
Qed.

Lemma GenerateFile_renders_witness :
  GenerateFile example_tree "a/a.go" example_template "" populated_world
  = (Fail (Errorf "failed to generate: template: package name missing"), populated_world)
  ∧ node_at (fs (GenerateFile example_tree "a/a.go" example_template "a" populated_world).2)
      ["home"; "d"; "src"; "a"; "a.go"]
    = Some (FileNode mode_0600 (bytes "package a")).
Proof.
  destruct (GenerateFile_renders example_tree "a/a.go" example_template "" populated_world)
    as [Hfail _].
  destruct (GenerateFile_renders example_tree "a/a.go" example_template "a" populated_world)
    as [_ Hok].
  split.
  - apply (Hfail (Errorf "template: package name missing")). reflexivity.
  - apply (Hok (bytes "package a")); by_computation.
Defined.

(** ** What NewTemporary and Copy never do *)

Lemma NewTemporary_dirs_adds ds w r w' :
  for_range ds NewTemporary_mkdir w = (r, w') ->
  w' = set_fs (fs w') w
  ∧ fs w ⊆ fs w'
  ∧ (∀ q n, fs w !! q = None -> fs w' !! q = Some n -> n = DirNode mode_0700).
Proof.
  destruct r as [[]|e]; intros H.
  - destruct (NewTemporary_dirs_Ok _ _ _ H) as (? & ? & ? & _). done.
  - apply for_range_Fail in H as (pre & x & post & w1 & _ & Hpre & Hx).
    apply wrap_Fail in Hx as (c & Hx & _). apply MkdirAll_Fail in Hx as ->.
    destruct (NewTemporary_dirs_Ok _ _ _ Hpre) as (? & ? & ? & _). done.
Qed.

(** X6.  Whatever [NewTemporary] returns, every node that existed is
    there unchanged, anything new is a directory with mode 0700, and the
    working directory is the same; with [updateGoPath] false, or when the
    call fails, the environment and [build.Default.GOPATH] are untouched. *)
Theorem NewTemporary_only_adds dir upd w r w' :
  NewTemporary dir upd w = (r, w') ->
  (∀ q n, fs w !! q = Some n -> fs w' !! q = Some n)
  ∧ (∀ q n, fs w !! q = None -> fs w' !! q = Some n -> n = DirNode mode_0700)
  ∧ cwd w' = cwd w
  ∧ (upd = false ∨ (∃ e, r = Fail e) -> env w' = env w ∧ GOPATH w' = GOPATH w).
Proof.
  intros H.
  assert (∃ r1 w1, for_range [filepath.Join dir "src"; filepath.Join dir "pkg";
                               filepath.Join dir "bin"] NewTemporary_mkdir w = (r1, w1)
                   ∧ fs w' = fs w1 ∧ cwd w' = cwd w1
                   ∧ (upd = false ∨ (∃ e, r = Fail e) -> w' = w1)) as (r1 & w1 & Hdirs & Hfs & Hcwd & Hsame).
  { destruct r as [t|e].
    - destruct (NewTemporary_Ok _ _ _ _ _ H) as (w1 & Hdirs & _ & _ & _ & _ & _ & _ & Hupd).
      exists (Ok tt), w1. split; [done|]. destruct upd.
      + destruct Hupd as (_ & _ & ->). split; [done|]. split; [done|].
        intros [|[e ?]]; done.
      + destruct Hupd as [-> _]. done.
    - destruct (NewTemporary_Fail _ _ _ _ _ H) as [Hdirs | (_ & Hdirs & _)].
      + by exists (Fail e), w'.
      + by exists (Ok tt), w'. }
  destruct (NewTemporary_dirs_adds _ _ _ _ Hdirs) as (Hw1 & Hsub & Hnew).
  rewrite Hfs, Hcwd. split; [intros q n Hq; by eapply lookup_weaken|]. split; [done|].
  split; [by rewrite Hw1|]. intros Hc. rewrite (Hsame Hc). by rewrite Hw1.
Qed.

Lemma NewTemporary_only_adds_witness :
  let r := NewTemporary "d" false written_world in
  fs r.2 !! ["home"; "d"; "src"; "x"] = Some (FileNode mode_0600 (bytes "hello world"))
  ∧ fs r.2 !! ["home"; "d"; "src"] = Some (DirNode mode_0755)
  ∧ env r.2 = env written_world ∧ GOPATH r.2 = GOPATH written_world.
Proof.
  intros r.
  destruct (NewTemporary_only_adds "d" false written_world r.1 r.2)
    as (Hkeep & _ & _ & Henv); [apply surjective_pairing|].
  split; [apply Hkeep; by_computation|]. split; [apply Hkeep; by_computation|].
  apply Henv. by left.
Defined.

(** X7.  Whatever [Copy] returns, it leaves the environment,
    [build.Default.GOPATH] and the working directory alone, every directory
    keeps its mode, and every regular file is still a regular file with the
    same mode (only its bytes may differ). *)
Theorem Copy_keeps t files w r w' :
  Copy t files w = (r, w') ->
  env w' = env w ∧ GOPATH w' = GOPATH w ∧ cwd w' = cwd w
  ∧ (∀ q m, node_at (fs w) q = Some (DirNode m) -> node_at (fs w') q = Some (DirNode m))
  ∧ (∀ q m d, node_at (fs w) q = Some (FileNode m d) ->
       ∃ d', node_at (fs w') q = Some (FileNode m d')).
Proof.
  intros H. destruct (Copy_grows _ _ _ _ _ H) as [(Hcwd & Henv & Hgo) Hp].
  split; [done|]. split; [done|]. split; [done|]. split.
  - intros q m. by apply preserves_dir.
  - intros q m d. by apply preserves_file.
Qed.

Lemma Copy_keeps_witness :
  let r := Copy example_tree example_files written_world in
  GOPATH r.2 = "/go"
  ∧ node_at (fs r.2) ["home"; "d"; "src"] = Some (DirNode mode_0755)
  ∧ ∃ d', node_at (fs r.2) ["home"; "d"; "src"; "x"] = Some (FileNode mode_0600 d').
Proof.
  intros r.
  destruct (Copy_keeps example_tree example_files written_world r.1 r.2)
    as (_ & Hgo & _ & Hdir & Hfile); [apply surjective_pairing|].
  split; [by rewrite Hgo|]. split; [apply Hdir; by_computation|].
  apply (Hfile _ _ (bytes "hello world")). by_computation.
Defined.

(** ** Reset a second time *)

Lemma Reset_process t w :
  env (Reset t w) = (if update t then <["GOPATH" := Orig t]> (env w) else env w)
  ∧ GOPATH (Reset t w) = (if update t then Orig t else GOPATH w)
  ∧ cwd (Reset t w) = cwd w.
Proof.
  unfold Reset.
  set (w0 := if update t then Setenv "GOPATH" (Orig t) (set_GOPATH (Orig t) w) else w).
  assert (env w0 = (if update t then <["GOPATH" := Orig t]> (env w) else env w)
          ∧ GOPATH w0 = (if update t then Orig t else GOPATH w) ∧ cwd w0 = cwd w)
    as (He & Hg & Hc) by (unfold w0; by destruct (update t)).
  destruct (deleteDir t); [|done].
  destruct (RemoveAll (Path t) w0) as [[err|] w1] eqn:E;
    apply RemoveAll_same_process in E as (Hc1 & He1 & Hg1); simpl; by rewrite ?He1, ?Hg1, ?Hc1.
Qed.

Lemma RemoveAll_again path w wb :
  fs wb = fs (RemoveAll path w).2 -> cwd wb = cwd w ->
  fs (RemoveAll path wb).2 = fs wb.
Proof.
  intros Hfs Hcwd. unfold RemoveAll in *.
  case_bool_decide; [done|]. destruct (endsWithDot path); [done|].
  destruct (resolve w path) as [e|p] eqn:Hres.
  - assert (fs wb = fs w) as Hfs' by (by destruct e).
    rewrite (resolve_ext w wb) by done. rewrite Hres. by destruct e.
  - destruct (node_at (fs w) p) as [n|] eqn:Hn; simpl in Hfs.
    + unfold resolve in *. rewrite bool_decide_eq_false_2 in * by done.
      unfold start in *. rewrite Hcwd, Hfs.
      destruct (walk_removed _ p _ _ _ Hres) as [-> | ->]; [|by rewrite <- Hfs].
      destruct (decide (p = [])) as [->|Hne].
      * simpl. apply map_eq. intros q.
        apply option_eq. intros x. rewrite !map_lookup_filter_Some. tauto.
      * rewrite node_at_lookup by done.
        rewrite map_lookup_filter_None_2; [by rewrite <- Hfs|].
        right. intros x _. simpl. intros Hx. by apply Hx.
    + rewrite (resolve_ext w wb) by done. rewrite Hres, Hfs, Hn. done.
Qed.

(** X8.  A second [Reset] of the same tree changes neither the file tree
    nor the environment nor [build.Default.GOPATH]: the first one has set
    GOPATH to [Orig] and removed what [os.RemoveAll] removes, and
    [os.RemoveAll] of a path that is gone removes nothing. *)
Theorem Reset_twice t w :
  fs (Reset t (Reset t w)) = fs (Reset t w)
  ∧ env (Reset t (Reset t w)) = env (Reset t w)
  ∧ GOPATH (Reset t (Reset t w)) = GOPATH (Reset t w)
  ∧ cwd (Reset t (Reset t w)) = cwd w.
Proof.
  split; [|split; [|split]].
  - destruct (deleteDir t) eqn:Hdel.
    + destruct (Reset_delete t w Hdel) as (w0 & Hfs0 & Hcwd0 & Hfs1 & Hcwd1).
      destruct (Reset_delete t (Reset t w) Hdel) as (wb & Hfsb & Hcwdb & Hfs2 & _).
      rewrite Hfs2. rewrite <- Hfsb. apply (RemoveAll_again _ w0).
      * by rewrite Hfsb.
      * congruence.
    + destruct (Reset_keep t (Reset t w) Hdel) as [-> _]. done.
  - destruct (Reset_process t (Reset t w)) as (-> & _ & _).
    destruct (Reset_process t w) as (-> & _ & _).
    destruct (update t); [by rewrite insert_insert_eq | done].
  - destruct (Reset_process t (Reset t w)) as (_ & -> & _).
    destruct (Reset_process t w) as (_ & -> & _). by destruct (update t).
  - destruct (Reset_process t (Reset t w)) as (_ & _ & ->).
    by destruct (Reset_process t w) as (_ & _ & ->).
Qed.

(** ** The older revision *)

(** X9.  In src/unnamed/part_000, a successful [NewTemporary dir true]
    puts [dir] after the old search path (old value, ":", [dir]), in the
    cache and in the environment; its [Reset], in whatever world it runs,
    sets both back to the old value and never touches the file tree (that
    revision has no [deleteDir]). *)
Theorem Part000_round_trip dir w t w1 w2 :
  Part000.NewTemporary dir true w = (Ok t, w1) ->
  GOPATH w1 = GOPATH w +:+ ":" +:+ dir
  ∧ Getenv "GOPATH" w1 = Getenv "GOPATH" w +:+ ":" +:+ dir
  ∧ GOPATH (Part000.Reset t w2) = GOPATH w
  ∧ Getenv "GOPATH" (Part000.Reset t w2) = Getenv "GOPATH" w
  ∧ fs (Part000.Reset t w2) = fs w2.
Proof.
  intros H. destruct (Part000_NewTemporary_appends _ _ _ _ H) as (Henv & Hgo & Horig).
  split; [done|]. split; [done|].
  unfold Part000.NewTemporary in H.
  apply bind_Ok in H as ([] & w0 & Hdirs & H). simpl in H.
  case_bool_decide as Hne; [discriminate|]. injection H as <- <-.
  apply NewTemporary_dirs_grows in Hdirs as [(_ & Henv0 & Hgo0) _].
  unfold Part000.Reset. simpl. rewrite Getenv_Setenv. simpl.
  unfold Getenv in *. rewrite Henv0, Hgo0 in *. by rewrite Hne.
Qed.

Lemma Part000_round_trip_witness :
  let r := Part000.NewTemporary "d" true example_world in
  GOPATH r.2 = "/go:d"
  ∧ GOPATH (Part000.Reset (Part000.mkTemporary "d" "/go" "d/pkg" "d/src" "d/bin" true) r.2)
    = "/go"
  ∧ fs (Part000.Reset (Part000.mkTemporary "d" "/go" "d/pkg" "d/src" "d/bin" true) r.2)
    = fs r.2.
Proof.
  intros r.
  destruct (Part000_round_trip "d" example_world
              (Part000.mkTemporary "d" "/go" "d/pkg" "d/src" "d/bin" true) r.2 r.2)
    as (Hgo & _ & Hback & _ & Hfs); [by_computation|].
  split; [exact Hgo|]. split; [exact Hback | exact Hfs].
Defined.

(** ** Resolution of a cleaned path *)

(** When the kernel can walk a path, it can walk the cleaned path, and gets
    to the same place: the cleaned path visits no directory the path itself
    does not visit. *)
Lemma walk_clean f r cur0 out ns ds es X p :
  out = ns ++ ds ->
  Forall is_name ns -> Forall (eq "..") ds -> (r = true -> cur0 = []) ->
  walk f cur0 (rev out) = inr X ->
  walk f X es = inr p ->
  walk f cur0 (filepath.clean_loop r out es) = inr p.
Proof.
  intros Hout Hns Hds Hr. revert out ns ds X Hout Hns Hds.
  induction es as [|e es IH]; intros out ns ds X -> Hns Hds Hout; simpl.
  { by intros [= <-]. }
  destruct (node_at f X) as [[m|m d]|] eqn:HX; [|discriminate..]. intros Hrest.
  assert (Hpush : ∀ e', walk f cur0 (rev (e' :: ns ++ ds)) = inr (step X e')).
  { intros e'. simpl. rewrite walk_app, Hout. simpl. by rewrite HX. }
  case_bool_decide as He1.
  { rewrite step_skip in Hrest by done. by apply (IH _ ns ds X). }
  case_bool_decide as He2.
  - subst e. destruct ns as [|top ns]; simpl.
    + destruct ds as [|d ds]; simpl.
      * destruct r.
        -- simpl in Hout. injection Hout as <-. rewrite (Hr eq_refl) in *.
           by apply (IH _ [] [] []).
        -- apply (IH _ [] [".."] (step X "..")); 
             [done | done | by repeat constructor | apply (Hpush "..") | done].
      * inversion Hds; subst. rewrite bool_decide_eq_true_2 by done.
        apply (IH _ [] (".." :: ".." :: ds) (step X ".."));
          [done | done | by repeat constructor | apply (Hpush "..") | done].
    + inversion Hns as [|? ? Htop Hns']; subst.
      rewrite bool_decide_eq_false_2 by apply Htop.
      simpl in Hout. rewrite walk_app in Hout.
      destruct (walk f cur0 (rev (ns ++ ds))) as [c|X'] eqn:HX'; [discriminate|].
      simpl in Hout. destruct (node_at f X') as [[m'|m' d']|]; [|discriminate..].
      injection Hout as <-. rewrite step_dotdot, step_name, removelast_last in Hrest by done.
      by apply (IH _ ns ds X').
  - assert (is_name e) as Hname by (split_and!; naive_solver).
    apply (IH _ (e :: ns) ds (step X e));
      [done | by constructor | done | apply (Hpush e) | done].
Qed.

(** ** The shape of a cleaned path *)

Lemma clean_loop_shape r out es ns ds :
  out = ns ++ ds ->
  Forall is_name ns -> Forall (eq "..") ds -> (r = true -> ds = []) ->
  ∃ D N, filepath.clean_loop r out es = D ++ N
         ∧ Forall (eq "..") D ∧ Forall is_name N ∧ (r = true -> D = []).
Proof.
  revert out ns ds. induction es as [|e es IH]; intros out ns ds -> Hns Hds Hr; simpl.
  - exists (rev ds), (rev ns). rewrite rev_app_distr.
    split; [done|]. split; [by apply Forall_rev|]. split; [by apply Forall_rev|].
    intros Ht. by rewrite Hr.
  - case_bool_decide as He1; [by apply (IH _ ns ds)|].
    case_bool_decide as He2.
    + destruct ns as [|top ns]; simpl.
      * destruct ds as [|d ds].
        -- destruct r; [by apply (IH _ [] [])|].
           apply (IH _ [] [".."]); [done | done | by repeat constructor | done].
        -- inversion Hds; subst. rewrite bool_decide_eq_true_2 by done.
           apply (IH _ [] (".." :: ".." :: ds)); [done | done | by repeat constructor |].
           intros Ht. by specialize (Hr Ht).
      * inversion Hns as [|? ? Htop Hns']; subst.
        rewrite bool_decide_eq_false_2 by apply Htop. by apply (IH _ ns ds).
    + assert (is_name e) as Hname by (split_and!; naive_solver).
      apply (IH _ (e :: ns) ds); [done | by constructor | done | done].
Qed.

Lemma clean_loop_dotdots out D :
  Forall (eq "..") out -> Forall (eq "..") D ->
  filepath.clean_loop false out D = rev out ++ D.
Proof.
  revert out. induction D as [|d D IH]; intros out Hout HD; simpl.
  - by rewrite app_nil_r.
  - inversion HD; subst. rewrite bool_decide_eq_false_2 by (intros [|]; done).
    rewrite bool_decide_eq_true_2 by done.
    destruct out as [|top out'].
    + rewrite IH by (by repeat constructor). done.
    + inversion Hout; subst. rewrite bool_decide_eq_true_2 by done.
      rewrite IH by (by repeat constructor). simpl. by rewrite <- !app_assoc.
Qed.

(** Cleaning a cleaned path changes nothing. *)
Lemma clean_loop_fixed r D N :
  Forall (eq "..") D -> Forall is_name N -> (r = true -> D = []) ->
  filepath.clean_loop r [] (D ++ N) = D ++ N.
Proof.
  intros HD HN Hr. rewrite clean_loop_app_names by done. f_equal.
  destruct r; [by rewrite Hr|]. by rewrite clean_loop_dotdots.
Qed.

Lemma clean_loop_app_skip r out es :
  filepath.clean_loop r out (es ++ [""]) = filepath.clean_loop r out es.
Proof.
  revert out. induction es as [|e es IH]; intros out; simpl.
  - done.
  - repeat case_bool_decide; try done.
    destruct out as [|top out']; [by destruct r|]. by case_bool_decide.
Qed.

(** ** filepath.Dir of a joined path *)

Lemma append_assoc a b c : (a +:+ b) +:+ c = a +:+ b +:+ c.
Proof.
  induction a as [|x a IH]; [done|].
  change (String x ((a +:+ b) +:+ c) = String x (a +:+ b +:+ c)). by rewrite IH.
Qed.

Lemma has_separator_app_sep s1 s2 : filepath.has_separator (s1 +:+ "/" +:+ s2) = true.
Proof.
  induction s1 as [|c s1 IH]; [done|].
  change (String c s1 +:+ "/" +:+ s2) with (String c (s1 +:+ "/" +:+ s2)).
  cbn [filepath.has_separator]. by rewrite IH, orb_true_r.
Qed.

Lemma upto_app_sep s1 s2 :
  filepath.upto_last_separator (s1 +:+ "/" +:+ s2)
  = s1 +:+ "/" +:+ filepath.upto_last_separator s2.
Proof.
  induction s1 as [|c s1 IH]; [done|].
  change (String c s1 +:+ "/" +:+ s2) with (String c (s1 +:+ "/" +:+ s2)).
  cbn [filepath.upto_last_separator filepath.has_separator].
  rewrite has_separator_app_sep, orb_true_r, IH. done.
Qed.

Lemma upto_no_separator e :
  filepath.has_separator e = false -> filepath.upto_last_separator e = "".
Proof. destruct e; [done|]. cbn [filepath.upto_last_separator]. by intros ->. Qed.

Lemma unelements_cons x l :
  l ≠ [] -> filepath.unelements (x :: l) = x +:+ "/" +:+ filepath.unelements l.
Proof. by destruct l. Qed.

Lemma upto_unelements L e :
  filepath.has_separator e = false ->
  filepath.upto_last_separator (filepath.unelements (L ++ [e]))
  = match L with [] => "" | _ => filepath.unelements L +:+ "/" end.
Proof.
  intros He. induction L as [|x L IH].
  - by apply upto_no_separator.
  - change ((x :: L) ++ [e]) with (x :: (L ++ [e])).
    rewrite unelements_cons by (by destruct L). rewrite upto_app_sep, IH.
    destruct L as [|y L]; [done|].
    rewrite (unelements_cons x) by done. by rewrite !append_assoc.
Qed.

(** [Join a b] for a non-empty [a] and [b] made of names. *)
Lemma Join_shape a b :
  a ≠ "" -> Forall is_name (filepath.elements b) ->
  let r := filepath.rooted a in
  let L := filepath.clean_loop r [] (filepath.elements a) ++ filepath.elements b in
  filepath.Join a b = (if r then "/" else "") +:+ filepath.unelements L
  ∧ Forall (fun e => filepath.has_separator e = false) L
  ∧ Forall (fun e => e ≠ "") L.
Proof.
  intros Ha Hb r L. unfold filepath.Join. rewrite bool_decide_eq_false_2 by done.
  unfold filepath.Clean.
  assert (a +:+ "/" +:+ b ≠ "") as Hne by (by destruct a).
  rewrite bool_decide_eq_false_2 by done.
  rewrite rooted_app, elements_app_sep by done.
  rewrite clean_loop_app_names by done. fold r. fold L.
  assert (HLsep : Forall (fun e => filepath.has_separator e = false) L).
  { apply Forall_app. split; [|apply elements_no_separator].
    apply clean_loop_Forall; [done | done | apply elements_no_separator]. }
  assert (HLne : Forall (fun e => e ≠ "") L).
  { apply Forall_app. split; [by apply clean_loop_no_empty|].
    eapply Forall_impl; [exact Hb|]. by intros e (? & _). }
  split; [|done]. destruct r; [done|]. simpl.
  assert (L ≠ []) as HL.
  { unfold L. pose proof (elements_nonempty b). by destruct (filepath.clean_loop _ _ _), (filepath.elements b). }
  destruct L as [|e l]; [done|]. inversion HLsep; inversion HLne; subst.
  destruct (unelements_not_rooted e l) as [_ Hnn]; [done..|].
  by rewrite bool_decide_eq_false_2.
Qed.

(** [Dir] of a clean path with at least one element after [L']: the path
    without its last element. *)
Lemma Dir_shape (r : bool) L' e :
  Forall (fun e => filepath.has_separator e = false) (L' ++ [e]) ->
  Forall (fun e => e ≠ "") (L' ++ [e]) ->
  filepath.clean_loop r [] L' = L' ->
  let s := (if r then "/" else "") +:+ filepath.unelements (L' ++ [e]) in
  filepath.Dir s ≠ ""
  ∧ filepath.rooted (filepath.Dir s) = r
  ∧ filepath.rooted s = r
  ∧ filepath.elements s = (if r then [""] else []) ++ L' ++ [e]
  ∧ filepath.elements (filepath.Dir s)
    = (if r then [""] else []) ++ L'
      ++ match L' with [] => [if r then "" else "."] | _ => [] end.
Proof.
  intros Hsep Hne Hfix s.
  assert (Hels : filepath.elements (filepath.unelements (L' ++ [e])) = L' ++ [e]).
  { apply elements_unelements; [by destruct L' | done]. }
  apply Forall_app in Hsep as [HsepL He%Forall_inv].
  apply Forall_app in Hne as [HneL Hene%Forall_inv].
  assert (Hup := upto_unelements L' e He).
  unfold filepath.Dir, s. destruct r.
  - change ("/" +:+ ?x) with (String "/" x).
    cbn [filepath.upto_last_separator filepath.has_separator filepath.IsPathSeparator
         Ascii.eqb Bool.eqb orb filepath.rooted].
    rewrite Hup. cbn [filepath.elements filepath.IsPathSeparator Ascii.eqb Bool.eqb].
    rewrite Hels. unfold filepath.Clean. rewrite bool_decide_eq_false_2 by done.
    cbn [filepath.rooted filepath.elements filepath.IsPathSeparator Ascii.eqb Bool.eqb].
    destruct L' as [|x l]; [done|].
    replace (filepath.unelements (x :: l) +:+ "/")
      with (filepath.unelements (x :: l) +:+ "/" +:+ "") by done.
    rewrite elements_app_sep, elements_unelements by done.
    cbn [filepath.clean_loop]. rewrite bool_decide_eq_true_2 by auto.
    change (filepath.elements "") with [""].
    rewrite clean_loop_app_skip, Hfix.
    change ("/" +:+ ?x) with (String "/" x).
    cbn [filepath.rooted filepath.elements filepath.IsPathSeparator Ascii.eqb Bool.eqb].
    rewrite elements_unelements by done. rewrite app_nil_r. done.
  - change ("" +:+ ?x) with x. rewrite Hup, Hels.
    destruct L' as [|x l].
    + simpl. split; [done|]. split; [done|].
      split; [|done]. destruct e as [|c e']; [done|]. simpl in He.
      apply orb_false_iff in He as [Hc _]. simpl. by rewrite Hc.
    + inversion HsepL; inversion HneL; subst.
      destruct (unelements_not_rooted x l) as [Hnr Hnn]; [done..|].
      destruct (unelements_not_rooted x (l ++ [e])) as [Hnr' _]; [done..|].
      unfold filepath.Clean.
      assert (filepath.unelements (x :: l) +:+ "/" ≠ "") as Hne'
        by (by destruct (filepath.unelements (x :: l))).
      rewrite bool_decide_eq_false_2 by done. rewrite rooted_app by done. rewrite Hnr.
      replace (filepath.unelements (x :: l) +:+ "/")
        with (filepath.unelements (x :: l) +:+ "/" +:+ "") by done.
      rewrite elements_app_sep, elements_unelements by (by try constructor).
      change (filepath.elements "") with [""].
      rewrite clean_loop_app_skip, Hfix.
      rewrite bool_decide_eq_false_2 by done.
      rewrite elements_unelements by (by try constructor).
      rewrite app_nil_r. done.
Qed.

(** ** os.MkdirAll along a path *)

Lemma walk_start_dir f cur es q m :
  walk f cur es = inr q -> node_at f q = Some (DirNode m) ->
  ∃ m', node_at f cur = Some (DirNode m').
Proof.
  destruct es as [|e es]; simpl.
  - intros [= ->]. eauto.
  - destruct (node_at f cur) as [[m'|m' d]|]; [eauto | discriminate..].
Qed.

(** Directories that exist are passed without a change. *)
Lemma MkdirAll_from_walk perm f cur dn es1 es2 q m :
  walk f cur es1 = inr q -> node_at f q = Some (DirNode m) ->
  MkdirAll_from perm f cur dn (es1 ++ es2)
  = MkdirAll_from perm f q (rev es1 ++ dn) es2.
Proof.
  revert cur dn. induction es1 as [|e es1 IH]; intros cur dn; simpl.
  - by intros [= ->].
  - destruct (node_at f cur) as [[m'|m' d]|]; [|discriminate..]. intros Hw Hq.
    destruct (walk_start_dir _ _ _ _ _ Hw Hq) as [m1 ->].
    rewrite (IH _ _ Hw Hq). by rewrite <- app_assoc.
Qed.

Lemma MkdirAll_from_app perm f cur dn es1 es2 :
  MkdirAll_from perm f cur dn (es1 ++ es2)
  = match MkdirAll_from perm f cur dn es1 with
    | inl e => inl e
    | inr f' => MkdirAll_from perm f' (locate cur es1) (rev es1 ++ dn) es2
    end.
Proof.
  revert f cur dn. induction es1 as [|e es1 IH]; intros f cur dn; simpl; [done|].
  destruct (node_at f (step cur e)) as [[m|m d]|]; [| done |].
  - rewrite IH. by rewrite <- app_assoc.
  - case_bool_decide; [|done]. rewrite IH. by rewrite <- app_assoc.
Qed.

Lemma MkdirAll_from_skip perm f cur dn es m :
  node_at f cur = Some (DirNode m) ->
  Forall (fun e => e = "" ∨ e = ".") es ->
  MkdirAll_from perm f cur dn es = inr f.
Proof.
  intros Hcur. revert dn. induction es as [|e es IH]; intros dn Hes; simpl; [done|].
  inversion Hes; subst. rewrite step_skip by done. rewrite Hcur. by apply IH.
Qed.

(** Along names, only the directories on the way can be new. *)
Lemma MkdirAll_from_names_new perm f cur dn ns f' :
  Forall is_name ns ->
  MkdirAll_from perm f cur dn ns = inr f' ->
  ∀ q, (∀ k, (1 <= k <= length ns)%nat -> q ≠ cur ++ take k ns) ->
       f' !! q = f !! q.
Proof.
  intros Hns. revert f cur dn.
  induction Hns as [|n ns Hn Hns IH]; intros f cur dn; simpl.
  - by intros [= <-] q Hq.
  - rewrite step_name by done.
    assert (Hshift : ∀ q, (∀ k, (1 <= k <= S (length ns))%nat -> q ≠ cur ++ take k (n :: ns)) ->
                          ∀ k, (1 <= k <= length ns)%nat -> q ≠ (cur ++ [n]) ++ take k ns).
    { intros q Hq k Hk. rewrite <- app_assoc. apply (Hq (S k)). lia. }
    destruct (node_at f (cur ++ [n])) as [[m|m d]|] eqn:E; [| discriminate |].
    + intros H q Hq. eapply IH; [exact H|]. by apply Hshift.
    + rewrite bool_decide_eq_true_2 by reflexivity. intros H q Hq.
      rewrite (IH _ _ _ H q) by (by apply Hshift).
      apply lookup_insert_ne. intros Heq. apply (Hq 1%nat); [lia|].
      simpl. by rewrite take_0.
Qed.

Lemma MkdirAll_from_names_Ok perm f cur dn ns :
  Forall is_name ns ->
  (∀ k m d, (1 <= k <= length ns)%nat ->
            node_at f (cur ++ take k ns) ≠ Some (FileNode m d)) ->
  ∃ f', MkdirAll_from perm f cur dn ns = inr f'.
Proof.
  intros Hns. revert f cur dn.
  induction Hns as [|n ns Hn Hns IH]; intros f cur dn Hfree; simpl; [eauto|].
  rewrite step_name by done.
  assert (Hcur : ∀ k, (1 <= k <= length ns)%nat ->
                      (cur ++ [n]) ++ take k ns = cur ++ take (S k) (n :: ns)).
  { intros k _. simpl. by rewrite <- app_assoc. }
  destruct (node_at f (cur ++ [n])) as [[m|m d]|] eqn:E.
  - apply IH. intros k m' d' Hk. rewrite Hcur by done. apply Hfree. simpl. lia.
  - exfalso. apply (Hfree 1%nat m d); [simpl; lia|]. simpl. by rewrite take_0.
  - rewrite bool_decide_eq_true_2 by done. apply IH. intros k m' d' Hk.
    rewrite node_at_insert_ne.
    + rewrite Hcur by done. apply Hfree. simpl. lia.
    + intros Heq. apply (f_equal length) in Heq. rewrite !length_app in Heq.
      rewrite length_take in Heq. simpl in Heq. lia.
Qed.

Lemma MkdirAll_from_names_blocked perm f cur dn ns k m d :
  Forall is_name ns -> (1 <= k <= length ns)%nat ->
  node_at f (cur ++ take k ns) = Some (FileNode m d) ->
  ∃ path, MkdirAll_from perm f cur dn ns = inl (PathError "mkdir" path ENOTDIR).
Proof.
  intros Hns. revert f cur dn k.
  induction Hns as [|n ns Hn Hns IH]; intros f cur dn k Hk Hfile; simpl in *; [lia|].
  rewrite step_name by done.
  destruct k as [|k]; [lia|]. simpl in Hfile.
  destruct (decide (k = 0%nat)) as [->|Hk0].
  { rewrite take_0 in Hfile. rewrite Hfile. eauto. }
  replace (cur ++ n :: take k ns) with ((cur ++ [n]) ++ take k ns) in Hfile
    by (by rewrite <- app_assoc).
  destruct (node_at f (cur ++ [n])) as [[m'|m' d']|] eqn:E; [| eauto |].
  - apply (IH _ _ _ k); [lia | done].
  - rewrite bool_decide_eq_true_2 by done. apply (IH _ _ _ k); [lia|].
    rewrite node_at_insert_ne; [done|].
    intros Heq. apply (f_equal length) in Heq. rewrite !length_app in Heq.
    rewrite length_take in Heq. simpl in Heq. lia.
Qed.

(** [MkdirAll (Dir (Join a b))] when [a] names a directory and [b] is made
    of names: the loop runs from that directory over the names but the
    last. *)
Lemma MkdirAll_Dir_Join perm w a b src m :
  resolve w a = inr src -> node_at (fs w) src = Some (DirNode m) ->
  Forall is_name (filepath.elements b) ->
  let full := filepath.Join a b in
  ∃ dn pre,
    MkdirAll (filepath.Dir full) perm w
    = match MkdirAll_from perm (fs w) src dn (removelast (filepath.elements b)) with
      | inl e => (Fail e, w)
      | inr f' => (Ok tt, set_fs f' w)
      end
    ∧ full ≠ ""
    ∧ filepath.elements full = pre ++ filepath.elements b
    ∧ walk (fs w) (start w full) pre = inr src.
Proof.
  intros Hres Hsrc Hb full.
  assert (a ≠ "") as Ha by (intros ->; discriminate).
  unfold resolve in Hres. rewrite bool_decide_eq_false_2 in Hres by done.
  destruct (Join_shape a b Ha Hb) as (Hfull & HLsep & HLne).
  set (r := filepath.rooted a) in *.
  set (C := filepath.clean_loop r [] (filepath.elements a)) in *.
  set (ns' := removelast (filepath.elements b)).
  set (e := List.last (filepath.elements b) "").
  assert (Hbe : filepath.elements b = ns' ++ [e])
    by (apply app_removelast_last, elements_nonempty).
  assert (Hns' : Forall is_name ns').
  { rewrite Hbe in Hb. by apply Forall_app in Hb as [? _]. }
  rewrite Hbe, app_assoc in Hfull, HLsep, HLne.
  assert (Hfix : filepath.clean_loop r [] (C ++ ns') = C ++ ns').
  { destruct (clean_loop_shape r [] (filepath.elements a) [] [])
      as (D & N & HC & HD & HN & HrD); [done..|].
    fold C in HC. rewrite HC, <- app_assoc.
    apply clean_loop_fixed; [done | by apply Forall_app | done]. }
  destruct (Dir_shape r (C ++ ns') e HLsep HLne Hfix)
    as (Hdne & Hdroot & Hroot & Hels & Hdels).
  fold full in Hfull. rewrite <- Hfull in Hdne, Hdroot, Hroot, Hels, Hdels.
  set (R := if r then [""] else []) in *.
  assert (Hstart : start w full = start w a) by (unfold start; by rewrite Hroot).
  assert (Hdstart : start w (filepath.Dir full) = start w a)
    by (unfold start; by rewrite Hdroot).
  assert (Hpre : walk (fs w) (start w a) (R ++ C) = inr src).
  { assert (walk (fs w) (start w a) C = inr src) as HC.
    { apply (walk_clean _ _ _ [] [] [] _ (start w a)); try done.
      unfold start. fold r. by intros ->. }
    unfold R, start in *. fold r in HC |- *. destruct r; [|done].
    simpl. by rewrite step_skip by auto. }
  exists (rev (R ++ C)), (R ++ C).
  split; [|split; [|split]].
  - unfold MkdirAll. rewrite bool_decide_eq_false_2 by done. rewrite Hdstart.
    destruct (walk_start_dir _ _ _ _ _ Hpre Hsrc) as [m0 ->].
    rewrite Hdels.
    match goal with |- context [R ++ (C ++ ns') ++ ?sk] =>
      replace (R ++ (C ++ ns') ++ sk) with ((R ++ C) ++ ns' ++ sk)
        by (by rewrite <- !app_assoc) end.
    rewrite (MkdirAll_from_walk _ _ _ _ _ _ _ _ Hpre Hsrc), app_nil_r.
    rewrite MkdirAll_from_app.
    destruct (MkdirAll_from perm (fs w) src (rev (R ++ C)) ns') as [c|f'] eqn:EM; [done|].
    destruct (MkdirAll_from_spec _ _ _ _ _ _ EM) as (_ & _ & Hw).
    destruct (Hw _ Hsrc) as (_ & m1 & Hdir).
    rewrite (MkdirAll_from_skip _ _ _ _ _ m1 Hdir); [done|].
    destruct (C ++ ns') as [|x l]; [|constructor].
    constructor; [destruct r; auto | constructor].
  - by destruct (Join_elements w a b Hb) as (? & _ & ? & _).
  - rewrite Hels, Hbe. by rewrite <- !app_assoc.
  - by rewrite Hstart.
Qed.

Lemma take_removelast {A} k (l : list A) :
  (k < length l)%nat -> take k (removelast l) = take k l.
Proof.
  intros Hk. rewrite removelast_firstn_len, take_take. f_equal. lia.
Qed.

Lemma length_removelast {A} (l : list A) : l ≠ [] -> length l = S (length (removelast l)).
Proof.
  intros Hl. rewrite removelast_firstn_len, length_take.
  destruct l; [done|]. simpl. lia.
Qed.

Lemma node_at_app_ne f src (names : list string) :
  names ≠ [] -> node_at f (src ++ names) = f !! (src ++ names).
Proof. intros Hn. apply node_at_lookup. by destruct src, names. Qed.

(** ** WriteFile under a source root that exists *)

(** [WriteFile] for a path made of names, run from the source root: what it
    returns and the world it leaves, by what is on the way. *)
Lemma WriteFile_names t file r w src m :
  resolve w (Src t) = inr src -> node_at (fs w) src = Some (DirNode m) ->
  Forall is_name (filepath.elements file) ->
  let full := filepath.Join (Src t) file in
  let p := src ++ filepath.elements file in
  ∃ dn,
    match MkdirAll_from mode_0700 (fs w) src dn (removelast (filepath.elements file)) with
    | inl c =>
        WriteFile t file r w
        = (Fail (Errorf ("failed to create dir " +:+ filepath.Dir full +:+ ": "
                         +:+ Error c)), w)
    | inr f1 =>
        match node_at f1 p with
        | Some (DirNode _) =>
            WriteFile t file r w
            = (Fail (Errorf ("couldn't open " +:+ full +:+ " for writing: "
                             +:+ Error (PathError "open" full EISDIR))), set_fs f1 w)
        | Some (FileNode m0 old) =>
            WriteFile t file r w
            = match ReadAll r (set_fs f1 w) with
              | inl c => (Fail (Errorf ("copy failed: " +:+ Error c)), set_fs f1 w)
              | inr data =>
                  (Ok tt, set_fs (<[p := FileNode m0 (overwrite data old)]> f1) w)
              end
        | None =>
            WriteFile t file r w
            = match ReadAll r (set_fs (<[p := FileNode mode_0600 []]> f1) w) with
              | inl c => (Fail (Errorf ("copy failed: " +:+ Error c)),
                          set_fs (<[p := FileNode mode_0600 []]> f1) w)
              | inr data => (Ok tt, set_fs (<[p := FileNode mode_0600 data]> f1) w)
              end
        end
    end.
Proof.
  intros Hres Hsrc Hnames full p.
  destruct (MkdirAll_Dir_Join mode_0700 w (Src t) file src m Hres Hsrc Hnames)
    as (dn & pre & Hmk & Hne & Hels & Hpre).
  fold full in Hmk, Hne, Hels, Hpre. exists dn.
  set (ns' := removelast (filepath.elements file)) in *.
  assert (Hbe : filepath.elements file = ns' ++ [List.last (filepath.elements file) ""])
    by (apply app_removelast_last, elements_nonempty).
  assert (Hp : p ≠ []).
  { unfold p. pose proof (elements_nonempty file). by destruct src, (filepath.elements file). }
  unfold WriteFile. fold full. unfold bind, wrap. rewrite Hmk.
  destruct (MkdirAll_from mode_0700 (fs w) src dn ns') as [c|f1] eqn:EM; [done|].
  destruct (MkdirAll_from_spec _ _ _ _ _ _ EM) as (Hsub & _ & Hw).
  destruct (Hw _ Hsrc) as (Hwalk & m1 & Hdir).
  assert (Hrp : resolve (set_fs f1 w) full = inr p).
  { unfold resolve. rewrite bool_decide_eq_false_2 by done.
    change (start (set_fs f1 w) full) with (start w full). simpl.
    rewrite Hels, walk_app.
    rewrite (walk_preserves _ _ _ _ _ (subseteq_preserves _ _ Hsub) Hpre).
    rewrite Hbe, walk_app, Hwalk. simpl. rewrite Hdir.
    assert (Forall is_name ns' ∧ is_name (List.last (filepath.elements file) "")) as [Hns' Hl].
    { rewrite Hbe in Hnames. apply Forall_app in Hnames as [? ?%Forall_inv]. done. }
    rewrite step_name, locate_names by done. unfold p.
    rewrite Hbe at 2. by rewrite app_assoc. }
  unfold OpenFile_CREATE_RDWR. rewrite Hrp. simpl.
  destruct (node_at f1 p) as [[m0|m0 old]|] eqn:Hn; [done | |].
  - unfold defer, bind, wrap, io_Copy, ret.
    destruct (ReadAll r (set_fs f1 w)) as [c|data]; cbv beta iota zeta;
      rewrite loggedClose_id; [done|].
    unfold WriteAt0. simpl. by rewrite Hn.
  - unfold defer, bind, wrap, io_Copy, ret.
    destruct (ReadAll r _) as [c|data]; cbv beta iota zeta;
      rewrite loggedClose_id; [done|].
    unfold WriteAt0. simpl.
    rewrite node_at_insert_eq by done. unfold set_fs. simpl.
    rewrite insert_insert_eq. unfold overwrite. by rewrite drop_nil, app_nil_r.
Qed.

(** The node at the destination is not touched by the directory loop. *)
Lemma MkdirAll_from_names_dest perm f src dn names f1 :
  Forall is_name names -> names ≠ [] ->
  MkdirAll_from perm f src dn (removelast names) = inr f1 ->
  node_at f1 (src ++ names) = node_at f (src ++ names).
Proof.
  intros Hn Hne EM. rewrite !node_at_app_ne by done.
  eapply MkdirAll_from_names_new; [|exact EM|].
  - rewrite (app_removelast_last "" Hne) in Hn. by apply Forall_app in Hn as [? _].
  - intros k Hk Heq. apply (f_equal length) in Heq.
    rewrite !length_app, length_take in Heq.
    pose proof (length_removelast _ Hne). lia.
Qed.

Lemma names_free_removelast f src (names : list string) :
  names ≠ [] ->
  (∀ k m d, (1 <= k < length names)%nat ->
            node_at f (src ++ take k names) ≠ Some (FileNode m d)) ->
  ∀ k m d, (1 <= k <= length (removelast names))%nat ->
           node_at f (src ++ take k (removelast names)) ≠ Some (FileNode m d).
Proof.
  intros Hne Hfree k m d Hk. pose proof (length_removelast _ Hne).
  rewrite take_removelast by lia. apply Hfree. lia.
Qed.

(** X10.  When the source root [t.Src] names a directory that exists,
    the path is made of names, no regular file is in the place of a
    directory on the way and the destination is not a directory, [WriteFile]
    with a buffer returns no error, and the destination is a regular file
    afterwards. *)
Theorem WriteFile_succeeds t file data w src m :
  resolve w (Src t) = inr src -> node_at (fs w) src = Some (DirNode m) ->
  Forall is_name (filepath.elements file) ->
  (∀ k m' d, (1 <= k < length (filepath.elements file))%nat ->
     node_at (fs w) (src ++ take k (filepath.elements file)) ≠ Some (FileNode m' d)) ->
  (∀ m', node_at (fs w) (src ++ filepath.elements file) ≠ Some (DirNode m')) ->
  ∃ w', WriteFile t file (bytes_Buffer data) w = (Ok tt, w')
        ∧ ∃ m' d, node_at (fs w') (src ++ filepath.elements file) = Some (FileNode m' d).
Proof.
  intros Hres Hsrc Hnames Hfree Hdest.
  pose proof (elements_nonempty file) as Hne.
  destruct (WriteFile_names t file (bytes_Buffer data) w src m Hres Hsrc Hnames) as [dn H].
  assert (Hns' : Forall is_name (removelast (filepath.elements file))).
  { rewrite (app_removelast_last "" Hne) in Hnames. by apply Forall_app in Hnames as [? _]. }
  destruct (MkdirAll_from_names_Ok mode_0700 (fs w) src dn _ Hns'
              (names_free_removelast _ _ _ Hne Hfree)) as [f1 EM].
  rewrite EM in H. rewrite (MkdirAll_from_names_dest _ _ _ _ _ _ Hnames Hne EM) in H.
  assert (Hp : src ++ filepath.elements file ≠ [])
    by (by destruct src, (filepath.elements file)).
  destruct (node_at (fs w) (src ++ filepath.elements file)) as [[m0|m0 old]|] eqn:Hn.
  - by destruct (Hdest m0).
  - simpl in H. eexists. split; [exact H|]. simpl. rewrite node_at_insert_eq by done. eauto.
  - simpl in H. eexists. split; [exact H|]. simpl. rewrite node_at_insert_eq by done. eauto.
Qed.

Lemma WriteFile_succeeds_witness :
  ∃ w', WriteFile example_tree "a/b/c.txt" (bytes_Buffer (bytes "hello")) populated_world
        = (Ok tt, w')
        ∧ ∃ m' d, node_at (fs w') ["home"; "d"; "src"; "a"; "b"; "c.txt"]
                  = Some (FileNode m' d).
Proof.
  apply (WriteFile_succeeds example_tree "a/b/c.txt" (bytes "hello") populated_world
           ["home"; "d"; "src"] mode_0755); try by_computation.
  - repeat constructor; discriminate.
  - intros k m' d Hk. change (length (filepath.elements "a/b/c.txt")) with 3%nat in Hk.
    destruct k as [|[|[|k]]]; [lia | vm_compute; discriminate.. | lia].
  - intros m'. vm_compute. discriminate.
Defined.

(** X11.  When the source root exists and a regular file is in the
    place of a directory on the way to the destination, [WriteFile] returns
    "failed to create dir <dir>: mkdir <path>: not a directory" and changes
    nothing. *)
Theorem WriteFile_blocked t file r w src m k m' d :
  resolve w (Src t) = inr src -> node_at (fs w) src = Some (DirNode m) ->
  Forall is_name (filepath.elements file) ->
  (1 <= k < length (filepath.elements file))%nat ->
  node_at (fs w) (src ++ take k (filepath.elements file)) = Some (FileNode m' d) ->
  ∃ path,
    WriteFile t file r w
    = (Fail (Errorf ("failed to create dir "
                     +:+ filepath.Dir (filepath.Join (Src t) file) +:+ ": "
                     +:+ Error (PathError "mkdir" path ENOTDIR))), w).
Proof.
  intros Hres Hsrc Hnames Hk Hfile.
  pose proof (elements_nonempty file) as Hne.
  destruct (WriteFile_names t file r w src m Hres Hsrc Hnames) as [dn H].
  assert (Hns' : Forall is_name (removelast (filepath.elements file))).
  { rewrite (app_removelast_last "" Hne) in Hnames. by apply Forall_app in Hnames as [? _]. }
  pose proof (length_removelast _ Hne) as Hlen.
  destruct (MkdirAll_from_names_blocked mode_0700 (fs w) src dn _ k m' d Hns') as [path EM];
    [lia | by rewrite take_removelast by lia |].
  rewrite EM in H. by exists path.
Qed.

Lemma WriteFile_blocked_witness :
  ∃ path,
    WriteFile example_tree "x/y.go" (bytes_Buffer (bytes "package x")) written_world
    = (Fail (Errorf ("failed to create dir d/src/x: "
                     +:+ Error (PathError "mkdir" path ENOTDIR))), written_world).
Proof.
  apply (WriteFile_blocked example_tree "x/y.go" (bytes_Buffer (bytes "package x"))
           written_world ["home"; "d"; "src"] mode_0755 1%nat mode_0600 (bytes "hello world"));
    try by_computation.
  - repeat constructor; discriminate.
  - change (length (filepath.elements "x/y.go")) with 2%nat. lia.
Defined.

(** X12.  When the source root exists, the way is free and the
    destination is a directory, [WriteFile] returns "couldn't open <path>
    for writing: open <path>: is a directory"; nothing that existed is
    removed or changed. *)
Theorem WriteFile_onto_directory t file r w src m m' :
  resolve w (Src t) = inr src -> node_at (fs w) src = Some (DirNode m) ->
  Forall is_name (filepath.elements file) ->
  (∀ k m0 d, (1 <= k < length (filepath.elements file))%nat ->
     node_at (fs w) (src ++ take k (filepath.elements file)) ≠ Some (FileNode m0 d)) ->
  node_at (fs w) (src ++ filepath.elements file) = Some (DirNode m') ->
  let full := filepath.Join (Src t) file in
  ∃ w', WriteFile t file r w
        = (Fail (Errorf ("couldn't open " +:+ full +:+ " for writing: "
                         +:+ Error (PathError "open" full EISDIR))), w')
        ∧ fs w ⊆ fs w'.
Proof.
  intros Hres Hsrc Hnames Hfree Hdest full.
  pose proof (elements_nonempty file) as Hne.
  destruct (WriteFile_names t file r w src m Hres Hsrc Hnames) as [dn H].
  assert (Hns' : Forall is_name (removelast (filepath.elements file))).
  { rewrite (app_removelast_last "" Hne) in Hnames. by apply Forall_app in Hnames as [? _]. }
  destruct (MkdirAll_from_names_Ok mode_0700 (fs w) src dn _ Hns'
              (names_free_removelast _ _ _ Hne Hfree)) as [f1 EM].
  rewrite EM in H. rewrite (MkdirAll_from_names_dest _ _ _ _ _ _ Hnames Hne EM) in H.
  rewrite Hdest in H. eexists. split; [exact H|]. simpl.
  by destruct (MkdirAll_from_spec _ _ _ _ _ _ EM) as (? & _).
Qed.

Lemma WriteFile_onto_directory_witness :
  ∃ w', WriteFile example_tree "pkg" (bytes_Buffer (bytes "x"))
          (NewTemporary "d/src" false populated_world).2
        = (Fail (Errorf "couldn't open d/src/pkg for writing: open d/src/pkg: is a directory"),
           w').
Proof.
  destruct (WriteFile_onto_directory example_tree "pkg" (bytes_Buffer (bytes "x"))
              (NewTemporary "d/src" false populated_world).2
              ["home"; "d"; "src"] mode_0755 mode_0700) as (w' & H & _);
    try by_computation.
  - repeat constructor; discriminate.
  - intros k m0 d Hk. change (length (filepath.elements "pkg")) with 1%nat in Hk. lia.
  - by exists w'.
Defined.

(** ** Writes stay under the source root *)

Lemma not_strictly_below (src q l : location) :
  (below src q -> q = src) -> l ≠ [] -> q ≠ src ++ l.
Proof.
  intros H Hl ->. assert (src ++ l = src ++ []) as Heq.
  { rewrite app_nil_r. apply H. by apply prefix_app_r. }
  apply app_inv_head in Heq. done.
Qed.

Lemma take_nonempty {A} k (l : list A) : (1 <= k <= length l)%nat -> take k l ≠ [].
Proof. destruct k, l; simpl; intros; [lia | lia | lia | done]. Qed.

Lemma WriteFile_frame t file r w src m res w' :
  resolve w (Src t) = inr src -> node_at (fs w) src = Some (DirNode m) ->
  Forall is_name (filepath.elements file) ->
  WriteFile t file r w = (res, w') ->
  ∀ q, (below src q -> q = src) -> fs w' !! q = fs w !! q.
Proof.
  intros Hres Hsrc Hnames H q Hq.
  pose proof (elements_nonempty file) as Hne.
  destruct (WriteFile_names t file r w src m Hres Hsrc Hnames) as [dn Hrun].
  assert (Hns' : Forall is_name (removelast (filepath.elements file))).
  { rewrite (app_removelast_last "" Hne) in Hnames. by apply Forall_app in Hnames as [? _]. }
  assert (Hqp : q ≠ src ++ filepath.elements file) by by apply not_strictly_below.
  destruct (MkdirAll_from _ _ _ _ _) as [c|f1] eqn:EM.
  { rewrite Hrun in H. by injection H as _ <-. }
  assert (Hf1 : f1 !! q = fs w !! q).
  { eapply MkdirAll_from_names_new; [exact Hns' | exact EM |].
    intros k Hk. apply not_strictly_below; [done | by apply take_nonempty]. }
  destruct (node_at f1 _) as [[m0|m0 old]|]; rewrite Hrun in H.
  - by injection H as _ <-.
  - destruct (ReadAll r _); injection H as _ <-; simpl; [done|].
    by rewrite lookup_insert_ne.
  - destruct (ReadAll r _); injection H as _ <-; simpl; by rewrite lookup_insert_ne.
Qed.

Lemma CopyFile_frame t dest s w src m res w' :
  resolve w (Src t) = inr src -> node_at (fs w) src = Some (DirNode m) ->
  Forall is_name (filepath.elements dest) ->
  CopyFile t dest s w = (res, w') ->
  ∀ q, (below src q -> q = src) -> fs w' !! q = fs w !! q.
Proof.
  intros Hres Hsrc Hnames H q Hq.
  destruct (Stat s w) as [e|n] eqn:Hst.
  - rewrite (CopyFile_missing_source _ _ _ _ _ Hst) in H. by injection H as _ <-.
  - apply Stat_inr in Hst as (p & Hp & Hn).
    rewrite (CopyFile_Open _ _ _ _ _ _ Hp Hn) in H. by eapply WriteFile_frame.
Qed.

Lemma Copy_frame t files w src m res w' :
  resolve w (Src t) = inr src -> node_at (fs w) src = Some (DirNode m) ->
  Forall (fun f => Forall is_name (filepath.elements (SourceFile.Dest f))) files ->
  Copy t files w = (res, w') ->
  ∀ q, (below src q -> q = src) -> fs w' !! q = fs w !! q.
Proof.
  intros Hres Hsrc Hall. revert w Hres Hsrc.
  induction Hall as [|f files Hf Hall IH]; intros w Hres Hsrc H q Hq.
  - by injection H as _ <-.
  - unfold Copy in H. simpl in H. unfold bind in H.
    destruct (Copy_entry t f w) as [[[]|e] w1] eqn:E.
    + assert (fs w1 !! q = fs w !! q) as <-.
      { unfold Copy_entry in E. destruct (SourceFile.Content f).
        - by eapply WriteFile_frame. - by eapply CopyFile_frame. }
      destruct (Copy_entry_grows _ _ _ _ _ E) as [(Hcwd & _) Hp].
      eapply (IH w1); [by eapply resolve_preserves | by eapply preserves_dir | exact H | done].
    + injection H as _ <-.
      unfold Copy_entry in E. destruct (SourceFile.Content f).
      * by eapply WriteFile_frame. * by eapply CopyFile_frame.
Qed.

(** X13.  When the source root [t.Src] names a directory that exists
    and every destination is a path made of names, [Copy], whatever it
    returns, changes nothing outside that directory: a location is strictly
    below the source root or holds what it held before. *)
Theorem Copy_stays_below t files w src m res w' :
  resolve w (Src t) = inr src -> node_at (fs w) src = Some (DirNode m) ->
  Forall (fun f => Forall is_name (filepath.elements (SourceFile.Dest f))) files ->
  Copy t files w = (res, w') ->
  ∀ q, (below src q ∧ q ≠ src) ∨ fs w' !! q = fs w !! q.
Proof.
  intros Hres Hsrc Hall H q. unfold below.
  destruct (decide (src `prefix_of` q)) as [Hb|Hb].
  - destruct (decide (q = src)) as [->|Hne]; [|by left].
    right. by eapply Copy_frame.
  - right. eapply Copy_frame; [done..|]. by intros ?.
Qed.

Lemma Copy_stays_below_witness :
  let r := Copy example_tree example_files written_world in
  fs r.2 !! ["home"; "d"] = fs written_world !! ["home"; "d"]
  ∧ fs r.2 !! ["tmp"] = fs written_world !! ["tmp"].
Proof.
  intros r.
  pose proof (Copy_stays_below example_tree example_files written_world
                ["home"; "d"; "src"] mode_0755 r.1 r.2) as H.
  split.
  - destruct (H ltac:(by_computation) ltac:(by_computation)
                ltac:(repeat constructor; discriminate)
                ltac:(apply surjective_pairing) ["home"; "d"]) as [[Hb _]|Heq]; [|exact Heq].
    apply prefix_length in Hb. simpl in Hb. lia.
  - destruct (H ltac:(by_computation) ltac:(by_computation)
                ltac:(repeat constructor; discriminate)
                ltac:(apply surjective_pairing) ["tmp"]) as [[Hb _]|Heq]; [|exact Heq].
    apply prefix_length in Hb. simpl in Hb. lia.
Defined.

(** ** NewTemporary in a directory that exists *)

Lemma set_fs_same w : set_fs (fs w) w = w.
Proof. by destruct w. Qed.

Lemma MkdirAll_existing path perm w p m :
  resolve w path = inr p -> node_at (fs w) p = Some (DirNode m) ->
  MkdirAll path perm w = (Ok tt, w).
Proof.
  intros Hres Hp. assert (path ≠ "") as Hne by (intros ->; discriminate).
  unfold resolve in Hres. rewrite bool_decide_eq_false_2 in Hres by done.
  unfold MkdirAll. rewrite bool_decide_eq_false_2 by done.
  destruct (walk_start_dir _ _ _ _ _ Hres Hp) as [m0 ->].
  rewrite <- (app_nil_r (filepath.elements path)).
  rewrite (MkdirAll_from_walk _ _ _ _ _ _ _ _ Hres Hp). simpl.
  by rewrite set_fs_same.
Qed.

(** X14.  When src, pkg and bin already exist as directories under
    [dir], [NewTemporary dir false] succeeds and leaves the world exactly as
    it was; the tree it returns has the three joined paths, an empty [Orig]
    and both flags false. *)
Theorem NewTemporary_existing dir w :
  (∀ name, name ∈ ["src"; "pkg"; "bin"] ->
     ∃ m, Stat (filepath.Join dir name) w = inr (DirNode m)) ->
  NewTemporary dir false w
  = (Ok (mkTemporary dir "" (filepath.Join dir "pkg") (filepath.Join dir "src")
           (filepath.Join dir "bin") false false), w).
Proof.
  intros H.
  assert (Hmk : ∀ name, name ∈ ["src"; "pkg"; "bin"] ->
                        NewTemporary_mkdir (filepath.Join dir name) w = (Ok tt, w)).
  { intros name Hin. destruct (H name Hin) as [m Hst].
    apply Stat_inr in Hst as (p & Hres & Hp).
    unfold NewTemporary_mkdir, wrap. by rewrite (MkdirAll_existing _ _ _ _ _ Hres Hp). }
  unfold NewTemporary. cbn [Src Pkg Bin update for_range]. unfold bind.
  rewrite (Hmk "src"), (Hmk "pkg"), (Hmk "bin")
    by (apply list_elem_of_In; simpl; tauto).
  done.
Qed.

Lemma NewTemporary_existing_witness :
  let w := (NewTemporary "d" true example_world).2 in
  NewTemporary "d" false w = (Ok example_tree, w).
Proof.
  intros w. apply (NewTemporary_existing "d" w).
  intros name Hin. apply list_elem_of_In in Hin. simpl in Hin.
  destruct Hin as [<-|[<-|[<-|[]]]]; exists mode_0700; by_computation.
Defined.

Lemma MkdirAll_Join perm w a b src m :
  resolve w a = inr src -> node_at (fs w) src = Some (DirNode m) ->
  Forall is_name (filepath.elements b) ->
  ∃ dn,
    MkdirAll (filepath.Join a b) perm w
    = match MkdirAll_from perm (fs w) src dn (filepath.elements b) with
      | inl e => (Fail e, w)
      | inr f' => (Ok tt, set_fs f' w)
      end.
Proof.
  intros Hres Hsrc Hb.
  destruct (MkdirAll_Dir_Join perm w a b src m Hres Hsrc Hb)
    as (_ & pre & _ & Hne & Hels & Hpre).
  exists (rev pre). unfold MkdirAll. rewrite bool_decide_eq_false_2 by done.
  destruct (walk_start_dir _ _ _ _ _ Hpre Hsrc) as [m0 ->].
  rewrite Hels, (MkdirAll_from_walk _ _ _ _ _ _ _ _ Hpre Hsrc), app_nil_r. done.
Qed.

Lemma NewTemporary_mkdir_frame dir b w p m r w' :
  resolve w dir = inr p -> node_at (fs w) p = Some (DirNode m) ->
  Forall is_name (filepath.elements b) ->
  NewTemporary_mkdir (filepath.Join dir b) w = (r, w') ->
  ∀ q, (below p q -> q = p) -> fs w' !! q = fs w !! q.
Proof.
  intros Hres Hp Hb H q Hq. unfold NewTemporary_mkdir, wrap in H.
  destruct (MkdirAll_Join mode_0700 w dir b p m Hres Hp Hb) as [dn Hmk].
  rewrite Hmk in H. destruct (MkdirAll_from _ _ _ _ _) as [c|f1] eqn:EM.
  - by injection H as _ <-.
  - injection H as _ <-. simpl.
    eapply MkdirAll_from_names_new; [exact Hb | exact EM |].
    intros k Hk. apply not_strictly_below; [done | by apply take_nonempty].
Qed.

Lemma NewTemporary_dirs_frame dir bs w p m r w' :
  resolve w dir = inr p -> node_at (fs w) p = Some (DirNode m) ->
  Forall (fun b => Forall is_name (filepath.elements b)) bs ->
  for_range (map (filepath.Join dir) bs) NewTemporary_mkdir w = (r, w') ->
  ∀ q, (below p q -> q = p) -> fs w' !! q = fs w !! q.
Proof.
  intros Hres Hp Hall. revert w Hres Hp.
  induction Hall as [|b bs Hb Hall IH]; intros w Hres Hp H q Hq; simpl in H.
  - by injection H as _ <-.
  - unfold bind in H.
    destruct (NewTemporary_mkdir (filepath.Join dir b) w) as [[[]|e] w1] eqn:E.
    + rewrite <- (NewTemporary_mkdir_frame _ _ _ _ _ _ _ Hres Hp Hb E q Hq).
      destruct (NewTemporary_mkdir_grows _ _ _ _ E) as [(Hcwd & _) Hpres].
      eapply (IH w1); [by eapply resolve_preserves | by eapply preserves_dir | exact H | done].
    + injection H as _ <-. by eapply NewTemporary_mkdir_frame.
Qed.

Lemma file_was_there f f' perm q m d :
  f ⊆ f' -> (∀ q n, f !! q = None -> f' !! q = Some n -> n = DirNode perm) ->
  node_at f' q = Some (FileNode m d) -> node_at f q = Some (FileNode m d).
Proof.
  intros Hsub Hnew. destruct q as [|x q]; [done|]. simpl. intros Hq.
  destruct (f !! (x :: q)) as [n|] eqn:E.
  - by rewrite (lookup_weaken _ _ _ _ E Hsub) in Hq.
  - by pose proof (Hnew _ _ E Hq).
Qed.

Lemma NewTemporary_dirs_succeed dir bs w p m :
  resolve w dir = inr p -> node_at (fs w) p = Some (DirNode m) ->
  Forall (fun b => is_name b ∧ filepath.elements b = [b]) bs ->
  (∀ b m' d, b ∈ bs -> node_at (fs w) (p ++ [b]) ≠ Some (FileNode m' d)) ->
  ∃ w', for_range (map (filepath.Join dir) bs) NewTemporary_mkdir w = (Ok tt, w').
Proof.
  intros Hres Hp Hall. revert w Hres Hp.
  induction Hall as [|b bs [Hb Hel] Hall IH]; intros w Hres Hp Hfree; simpl.
  - by exists w.
  - assert (Hnames : Forall is_name (filepath.elements b)) by (rewrite Hel; by constructor).
    destruct (MkdirAll_Join mode_0700 w dir b p m Hres Hp Hnames) as [dn Hmk].
    rewrite Hel in Hmk.
    destruct (MkdirAll_from_names_Ok mode_0700 (fs w) p dn [b]) as [f1 EM].
    { by constructor. }
    { intros k m' d Hk. simpl in Hk. replace k with 1%nat by lia. simpl.
      apply Hfree. apply list_elem_of_In. by left. }
    rewrite EM in Hmk. unfold bind, NewTemporary_mkdir at 1, wrap. rewrite Hmk.
    destruct (MkdirAll_from_spec _ _ _ _ _ _ EM) as (Hsub & Hnew & _).
    apply (IH (set_fs f1 w)).
    + eapply resolve_preserves; [| |exact Hres]; [done | by apply subseteq_preserves].
    + by eapply node_at_weaken.
    + intros b' m' d Hin Hfile. simpl in Hfile.
      apply (file_was_there _ _ _ _ _ _ Hsub Hnew) in Hfile.
      eapply Hfree; [|exact Hfile]. apply list_elem_of_In. right.
      by apply list_elem_of_In.
Qed.

Lemma NewTemporary_run dir upd w w1 :
  for_range [filepath.Join dir "src"; filepath.Join dir "pkg"; filepath.Join dir "bin"]
    NewTemporary_mkdir w = (Ok tt, w1) ->
  NewTemporary dir upd w
  = if upd then
      if bool_decide (Getenv "GOPATH" w1 ≠ GOPATH w1)
      then (Fail (GOPATH_mismatch (Getenv "GOPATH" w1) (GOPATH w1)), w1)
      else (Ok (mkTemporary dir (GOPATH w1) (filepath.Join dir "pkg")
                  (filepath.Join dir "src") (filepath.Join dir "bin") true false),
            Setenv "GOPATH" (dir +:+ ":" +:+ GOPATH w1)
              (set_GOPATH (dir +:+ ":" +:+ GOPATH w1) w1))
    else (Ok (mkTemporary dir "" (filepath.Join dir "pkg") (filepath.Join dir "src")
                (filepath.Join dir "bin") false false), w1).
Proof.
  intros H. unfold NewTemporary. cbn [Src Pkg Bin update]. unfold bind at 1.
  rewrite H. by destruct upd.
Qed.

(** X15.  When [dir] names a directory that exists, none of src, pkg
    and bin under it is a regular file and, for [updateGoPath] true, the
    environment variable GOPATH agrees with [build.Default.GOPATH],
    [NewTemporary] returns no error, and nothing outside [dir] (nor [dir]
    itself) is changed. *)
Theorem NewTemporary_succeeds dir upd w p m :
  resolve w dir = inr p -> node_at (fs w) p = Some (DirNode m) ->
  (∀ name m' d, name ∈ ["src"; "pkg"; "bin"] ->
     node_at (fs w) (p ++ [name]) ≠ Some (FileNode m' d)) ->
  (upd = true -> Getenv "GOPATH" w = GOPATH w) ->
  ∃ t w',
    NewTemporary dir upd w = (Ok t, w')
    ∧ ∀ q, (below p q -> q = p) -> fs w' !! q = fs w !! q.
Proof.
  intros Hres Hp Hfree Henv.
  destruct (NewTemporary_dirs_succeed dir ["src"; "pkg"; "bin"] w p m Hres Hp)
    as [w1 Hdirs]; [by repeat constructor | done |].
  pose proof (NewTemporary_dirs_frame dir ["src"; "pkg"; "bin"] w p m _ _ Hres Hp
                ltac:(repeat constructor; discriminate) Hdirs) as Hframe.
  destruct (NewTemporary_dirs_grows _ _ _ _ Hdirs) as [(_ & Henv1 & Hgo1) _].
  change (map (filepath.Join dir) ["src"; "pkg"; "bin"])
    with [filepath.Join dir "src"; filepath.Join dir "pkg"; filepath.Join dir "bin"]
    in Hdirs.
  rewrite (NewTemporary_run _ upd _ _ Hdirs). destruct upd.
  - rewrite bool_decide_eq_false_2.
    + eexists _, _. split; [done|]. exact Hframe.
    + intros Hne. apply Hne. unfold Getenv in *. rewrite Henv1, Hgo1. by apply Henv.
  - eexists _, _. split; [done|]. exact Hframe.
Qed.

Lemma NewTemporary_succeeds_witness :
  ∃ t w', NewTemporary "d" true populated_world = (Ok t, w')
          ∧ fs w' !! ["home"; "d"] = fs populated_world !! ["home"; "d"].
Proof.
  destruct (NewTemporary_succeeds "d" true populated_world ["home"; "d"] mode_0755)
    as (t & w' & H & Hframe); try by_computation.
  - intros name m' d Hin. apply list_elem_of_In in Hin. simpl in Hin.
    destruct Hin as [<-|[<-|[<-|[]]]]; vm_compute; discriminate.
  - exists t, w'. split; [exact H|]. by apply Hframe.
Defined.

(** ** Trees inside trees *)

Lemma NewTemporary_GOPATH dir w t w' :
  NewTemporary dir true w = (Ok t, w') ->
  GOPATH w' = dir +:+ ":" +:+ GOPATH w
  ∧ Getenv "GOPATH" w' = dir +:+ ":" +:+ GOPATH w
  ∧ Getenv "GOPATH" w = GOPATH w
  ∧ Orig t = GOPATH w ∧ update t = true ∧ deleteDir t = false ∧ Path t = dir.
Proof.
  intros H. destruct (NewTemporary_Ok _ _ _ _ _ H)
    as (w1 & Hdirs & HPath & _ & _ & _ & Hupd & Hdel & Henv & Horig & ->).
  destruct (NewTemporary_dirs_grows _ _ _ _ Hdirs) as [(_ & Henv1 & Hgo1) _].
  rewrite Getenv_Setenv. simpl. unfold Getenv in *. rewrite Henv1, Hgo1 in *.
  by rewrite Horig.
Qed.

(** X16.  Two trees made one after the other, both with [updateGoPath]
    true: the search path holds the second directory, then the first, then
    the old value.  Resetting the second and then the first gives the old
    value back; in the other order the search path is left with the first
    directory in front, since each [Reset] writes the value its own
    [NewTemporary] saw. *)
Theorem Reset_nested d1 d2 w0 t1 w1 t2 w2 :
  NewTemporary d1 true w0 = (Ok t1, w1) ->
  NewTemporary d2 true w1 = (Ok t2, w2) ->
  GOPATH w2 = d2 +:+ ":" +:+ d1 +:+ ":" +:+ GOPATH w0
  ∧ GOPATH (Reset t1 (Reset t2 w2)) = GOPATH w0
  ∧ Getenv "GOPATH" (Reset t1 (Reset t2 w2)) = Getenv "GOPATH" w0
  ∧ GOPATH (Reset t2 (Reset t1 w2)) = d1 +:+ ":" +:+ GOPATH w0
  ∧ Getenv "GOPATH" (Reset t2 (Reset t1 w2)) = d1 +:+ ":" +:+ GOPATH w0.
Proof.
  intros H1 H2.
  destruct (NewTemporary_GOPATH _ _ _ _ H1) as (Hg1 & _ & He0 & Ho1 & Hu1 & _).
  destruct (NewTemporary_GOPATH _ _ _ _ H2) as (Hg2 & _ & _ & Ho2 & Hu2 & _).
  split; [by rewrite Hg2, Hg1|].
  destruct (Reset_GOPATH t1 (Reset t2 w2) Hu1) as [-> ->].
  destruct (Reset_GOPATH t2 (Reset t1 w2) Hu2) as [-> ->].
  by rewrite Ho1, Ho2, Hg1, He0.
Qed.

Lemma Reset_nested_witness :
  let r1 := NewTemporary "d" true example_world in
  let r2 := NewTemporary "e" true r1.2 in
  let t1 := mkTemporary "d" "/go" "d/pkg" "d/src" "d/bin" true false in
  let t2 := mkTemporary "e" "d:/go" "e/pkg" "e/src" "e/bin" true false in
  GOPATH r2.2 = "e:d:/go"
  ∧ GOPATH (Reset t1 (Reset t2 r2.2)) = "/go"
  ∧ GOPATH (Reset t2 (Reset t1 r2.2)) = "d:/go".
Proof.
  intros r1 r2 t1 t2.
  destruct (Reset_nested "d" "e" example_world t1 r1.2 t2 r2.2)
    as (H2 & Hin & _ & Hout & _); [by_computation..|].
  split; [exact H2|]. split; [exact Hin | exact Hout].
Defined.

(** ** NewTemporaryWithFiles that succeeds, and its Reset *)

Lemma TempDir_fs dir0 pfx w dir w1 p :
  TempDir dir0 pfx w = (Ok dir, w1) -> resolve w1 dir = inr p ->
  fs w1 = <[p := DirNode mode_0700]> (fs w).
Proof.
  unfold TempDir. intros H Hres.
  apply TempDir_loop_Ok in H as (w0 & Hfs & (Hcwd & _) & Hmk).
  apply Mkdir_Ok in Hmk as (p' & Hres' & Hnone & ->).
  assert (resolve (set_fs (<[p' := DirNode mode_0700]> (fs w0)) w0) dir = inr p') as Hres2.
  { eapply resolve_preserves; [| |exact Hres']; [done|].
    apply subseteq_preserves, insert_subseteq. by apply node_at_None in Hnone as [_ ?]. }
  rewrite Hres2 in Hres. injection Hres as <-. simpl. by rewrite Hfs.
Qed.

Lemma NewTemporaryWithFiles_Ok pfx files w t w' :
  NewTemporaryWithFiles pfx files w = (Ok t, w') ->
  ∃ dir w1 t0 w2,
    TempDir "" pfx w = (Ok dir, w1)
    ∧ NewTemporary dir true w1 = (Ok t0, w2)
    ∧ t = set_deleteDir true t0
    ∧ Copy t files w2 = (Ok tt, w').
Proof.
  unfold NewTemporaryWithFiles. intros H.
  apply bind_Ok in H as (dir & w1 & Htmp & H).
  apply bind_Ok in H as (t0 & w2 & Hnew & H).
  apply bind_Ok in H as ([] & w3 & Hcopy & [= <- <-]).
  unfold on_error in Hnew, Hcopy.
  destruct (NewTemporary dir true w1) as [[t1|e] w2'] eqn:E1; [|discriminate].
  injection Hnew as -> ->.
  destruct (Copy (set_deleteDir true t0) files w2) as [[[]|e] w3'] eqn:E2; [|discriminate].
  injection Hcopy as ->. by exists dir, w1, t0, w2.
Qed.

(** X17.  A successful [NewTemporaryWithFiles] returns a tree
    with [deleteDir] and [update] set and [Orig] the old search path; the
    search path is the new directory, ":", the old value, in the cache and
    in the environment; the directory is one that was not there before, has
    mode 0700 and holds src, pkg and bin as directories; the destination of
    every entry is a regular file. *)
Theorem NewTemporaryWithFiles_builds pfx files w t w' :
  NewTemporaryWithFiles pfx files w = (Ok t, w') ->
  deleteDir t = true ∧ update t = true
  ∧ Orig t = GOPATH w
  ∧ GOPATH w' = Path t +:+ ":" +:+ GOPATH w
  ∧ Getenv "GOPATH" w' = Path t +:+ ":" +:+ GOPATH w
  ∧ (∃ p, resolve w' (Path t) = inr p ∧ node_at (fs w) p = None)
  ∧ Stat (Path t) w' = inr (DirNode mode_0700)
  ∧ (∀ d, d ∈ [Src t; Pkg t; Bin t] -> ∃ m, Stat d w' = inr (DirNode m))
  ∧ (∀ g, g ∈ files -> written t g w').
Proof.
  intros H. apply NewTemporaryWithFiles_Ok in H as (dir & w1 & t0 & w2 & Htmp & Hnew & -> & Hcopy).
  destruct (TempDir_Ok _ _ _ _ _ Htmp) as (p & Hdne & _ & Hpne & Hres1 & Hnone & Hdir1 & Hg1).
  destruct (NewTemporary_GOPATH _ _ _ _ Hnew) as (Hgo2 & Henv2 & _ & Horig & Hupd & _ & HPath).
  destruct (NewTemporary_Ok _ _ _ _ _ Hnew)
    as (w1' & Hdirs & _ & HSrc & HPkg & HBin & _ & _ & _ & _ & Hw2).
  destruct (NewTemporary_Ok_true _ _ _ _ Hnew) as (_ & _ & _ & _ & Hcwd2 & Hp12).
  destruct (Copy_grows _ _ _ _ _ Hcopy) as [(Hcwd3 & Henv3 & Hgo3) Hp23].
  destruct Hg1 as [(Hcwd1 & Henv1 & Hgowq) Hp01].
  cbn [deleteDir update Orig Path Src Pkg Bin set_deleteDir].
  split; [done|]. split; [done|]. split; [congruence|].
  split; [by rewrite Hgo3, Hgo2, HPath, Hgowq|].
  split; [unfold Getenv in *; by rewrite Henv3, Henv2, HPath, Hgowq|].
  assert (Hres3 : resolve w' dir = inr p).
  { eapply resolve_preserves; [| exact Hp23 |]; [done|].
    eapply resolve_preserves; [| exact Hp12 |]; done. }
  split; [|split; [|split]].
  - rewrite HPath. by exists p.
  - rewrite HPath. unfold Stat. rewrite Hres3.
    by rewrite (preserves_dir _ _ _ _ Hp23 (preserves_dir _ _ _ _ Hp12 Hdir1)).
  - intros d Hd. rewrite HSrc, HPkg, HBin in Hd.
    destruct (NewTemporary_dirs_Ok _ _ _ Hdirs) as (Hw1' & _ & _ & Hlay).
    destruct (Hlay d) as (Hrd & m & Hnd).
    { apply list_elem_of_In in Hd. apply list_elem_of_In. simpl in *. tauto. }
    assert (fs w2 = fs w1' ∧ cwd w2 = cwd w1') as [Hfs2 Hc2] by (by rewrite Hw2).
    exists m. unfold Stat.
    rewrite (resolve_preserves w2 w' d _ Hcwd3 Hp23
               ltac:(rewrite (resolve_ext w1' w2) by done; exact Hrd)).
    erewrite preserves_dir; [done | exact Hp23 |]. by rewrite Hfs2.
  - by apply (Copy_Ok_written _ _ _ _ Hcopy).
Qed.

Lemma NewTemporaryWithFiles_builds_witness :
  let one := SourceFile.mk "" "a/one.go" (Some (bytes "package a")) in
  let r := NewTemporaryWithFiles "pre" [one] example_world in
  r.1 = Ok (mkTemporary "/tmp/pre1000" "/go" "/tmp/pre1000/pkg" "/tmp/pre1000/src"
              "/tmp/pre1000/bin" true true)
  ∧ GOPATH r.2 = "/tmp/pre1000:/go"
  ∧ Stat "/tmp/pre1000" r.2 = inr (DirNode mode_0700)
  ∧ written (mkTemporary "/tmp/pre1000" "/go" "/tmp/pre1000/pkg" "/tmp/pre1000/src"
               "/tmp/pre1000/bin" true true) one r.2.
Proof.
  intros one r.
  destruct (NewTemporaryWithFiles_builds "pre" [one] example_world
              (mkTemporary "/tmp/pre1000" "/go" "/tmp/pre1000/pkg" "/tmp/pre1000/src"
                 "/tmp/pre1000/bin" true true) r.2)
    as (_ & _ & _ & Hgo & _ & _ & Hst & _ & Hwr); [by_computation|].
  split; [by_computation|]. split; [exact Hgo|]. split; [exact Hst|].
  apply Hwr. apply list_elem_of_In. by left.
Defined.

(** X18.  [NewTemporaryWithFiles] with destinations made of
    names, followed by [Reset]: the call changes nothing outside the new
    directory; after [Reset] the search path is what it was before the
    call, nothing is left at or below the directory, and every other
    location holds what it held before the call. *)
Theorem NewTemporaryWithFiles_round_trip pfx files w t w' :
  Forall (fun f => Forall is_name (filepath.elements (SourceFile.Dest f))) files ->
  NewTemporaryWithFiles pfx files w = (Ok t, w') ->
  ∃ p,
    resolve w' (Path t) = inr p ∧ node_at (fs w) p = None
    ∧ (∀ q, ¬ below p q -> fs w' !! q = fs w !! q)
    ∧ GOPATH (Reset t w') = GOPATH w
    ∧ Getenv "GOPATH" (Reset t w') = Getenv "GOPATH" w
    ∧ (∀ q, below p q -> fs (Reset t w') !! q = None)
    ∧ (∀ q, ¬ below p q -> fs (Reset t w') !! q = fs w !! q).
Proof.
  intros Hall H.
  apply NewTemporaryWithFiles_Ok in H as (dir & w1 & t0 & w2 & Htmp & Hnew & -> & Hcopy).
  destruct (TempDir_Ok _ _ _ _ _ Htmp) as (p & Hdne & Hdot & Hpne & Hres1 & Hnone & Hdir1 & Hg1).
  pose proof (TempDir_fs _ _ _ _ _ _ Htmp Hres1) as Hfs1.
  destruct (NewTemporary_GOPATH _ _ _ _ Hnew) as (_ & _ & Henv1 & Horig & Hupd & _ & HPath).
  destruct (NewTemporary_Ok _ _ _ _ _ Hnew)
    as (w1' & Hdirs & _ & HSrc & _ & _ & _ & _ & _ & _ & Hw2).
  destruct (NewTemporary_Ok_true _ _ _ _ Hnew) as (_ & _ & _ & _ & Hcwd2 & Hp12).
  destruct (Copy_grows _ _ _ _ _ Hcopy) as [(Hcwd3 & _) Hp23].
  destruct Hg1 as [(Hcwd1 & Henvw & Hgow) Hp01].
  assert (fs w2 = fs w1' ∧ cwd w2 = cwd w1') as [Hfs2 Hc2] by (by rewrite Hw2).
  assert (Hres3 : resolve w' dir = inr p).
  { eapply resolve_preserves; [| exact Hp23 |]; [done|].
    eapply resolve_preserves; [| exact Hp12 |]; done. }
  assert (Hdir3 : node_at (fs w') p = Some (DirNode mode_0700))
    by (by rewrite (preserves_dir _ _ _ _ Hp23 (preserves_dir _ _ _ _ Hp12 Hdir1))).
  (* the three directories are made under p *)
  assert (Hframe1 : ∀ q, ¬ below p q -> fs w2 !! q = fs w1 !! q).
  { intros q Hq. rewrite Hfs2.
    eapply (NewTemporary_dirs_frame dir ["src"; "pkg"; "bin"]);
      [exact Hres1 | exact Hdir1 | repeat constructor; discriminate | exact Hdirs | done]. }
  (* the files are written under p/src *)
  destruct (NewTemporary_dirs_Ok _ _ _ Hdirs) as (_ & _ & _ & Hlay).
  destruct (Hlay (filepath.Join dir "src")) as (Hrsrc & msrc & Hnsrc).
  { apply list_elem_of_In. simpl. tauto. }
  rewrite location_of_Join in Hrsrc, Hnsrc by (repeat constructor; discriminate).
  rewrite <- (resolve_location_of _ _ _ Hres1) in Hrsrc, Hnsrc.
  assert (Hframe2 : ∀ q, ¬ below p q -> fs w' !! q = fs w2 !! q).
  { intros q Hq.
    eapply (Copy_frame (set_deleteDir true t0) files w2 (p ++ filepath.elements "src"));
      [ | | exact Hall | exact Hcopy | ].
    - cbn [Src set_deleteDir]. rewrite HSrc. rewrite (resolve_ext w1' w2) by done. exact Hrsrc.
    - rewrite Hfs2. exact Hnsrc.
    - intros Hb. destruct Hq. unfold below in *. etrans; [|exact Hb]. by apply prefix_app_r. }
  assert (Hframe : ∀ q, ¬ below p q -> fs w' !! q = fs w !! q).
  { intros q Hq. rewrite Hframe2, Hframe1, Hfs1 by done.
    apply lookup_insert_ne. intros ->. by apply Hq. }
  exists p. cbn [Path set_deleteDir]. rewrite HPath.
  split; [done|]. split; [done|]. split; [done|].
  destruct (Reset_GOPATH (set_deleteDir true t0) w' Hupd) as [-> ->].
  cbn [Orig set_deleteDir]. rewrite Horig.
  split; [done|]. split; [unfold Getenv in *; by rewrite <- Henvw, Henv1|].
  destruct (Reset_delete (set_deleteDir true t0) w' eq_refl) as (w0 & Hfs0 & Hcwd0 & -> & _).
  cbn [Path set_deleteDir]. rewrite HPath.
  destruct (RemoveAll_removes dir w0 p (DirNode mode_0700) Hdne Hdot) as (_ & Hgone & Hkept).
  { by rewrite (resolve_ext w' w0). }
  { by rewrite Hfs0. }
  split.
  - intros q Hq. apply Hgone; [done|]. intros ->. by apply prefix_nil_inv in Hq.
  - intros q Hq. rewrite Hkept, Hfs0 by done. by apply Hframe.
Qed.

Lemma NewTemporaryWithFiles_round_trip_witness :
  let one := SourceFile.mk "" "a/one.go" (Some (bytes "package a")) in
  let t := mkTemporary "/tmp/pre1000" "/go" "/tmp/pre1000/pkg" "/tmp/pre1000/src"
             "/tmp/pre1000/bin" true true in
  let r := NewTemporaryWithFiles "pre" [one] example_world in
  r.1 = Ok t
  ∧ fs r.2 !! ["tmp"; "pre1000"; "src"; "a"; "one.go"]
    = Some (FileNode mode_0600 (bytes "package a"))
  ∧ GOPATH (Reset t r.2) = "/go"
  ∧ fs (Reset t r.2) !! ["tmp"; "pre1000"; "src"; "a"; "one.go"] = None
  ∧ fs (Reset t r.2) !! ["tmp"] = Some (DirNode mode_0755).
Proof.
  intros one t r.
  destruct (NewTemporaryWithFiles_round_trip "pre" [one] example_world t r.2)
    as (p & Hp & _ & _ & Hgo & _ & Hgone & Hkept);
    [repeat constructor; discriminate | by_computation |].
  assert (p = ["tmp"; "pre1000"]) as -> by (revert Hp; vm_compute; congruence).
  split; [by_computation|]. split; [by_computation|]. split; [exact Hgo|].
  split.
  - apply Hgone. by exists ["src"; "a"; "one.go"].
  - rewrite Hkept; [by_computation|]. intros Hb. apply prefix_length in Hb. simpl in Hb. lia.
Defined.

(** X19.  After a successful [NewTemporaryWithFiles], [KeepTempDir true]
    makes [Reset] leave the file tree as it is (the directory is still
    there, with mode 0700) while the search path is still set back to what
    it was before the call. *)
Theorem KeepTempDir_keeps pfx files w t w' :
  NewTemporaryWithFiles pfx files w = (Ok t, w') ->
  let w'' := Reset (KeepTempDir true t) w' in
  fs w'' = fs w' ∧ cwd w'' = cwd w'
  ∧ GOPATH w'' = GOPATH w
  ∧ Getenv "GOPATH" w'' = Getenv "GOPATH" w
  ∧ Stat (Path t) w'' = inr (DirNode mode_0700).
Proof.
  intros H w''.
  apply NewTemporaryWithFiles_Ok in H as (dir & w1 & t0 & w2 & Htmp & Hnew & -> & Hcopy).
  destruct (TempDir_Ok _ _ _ _ _ Htmp) as (p & _ & _ & _ & Hres1 & _ & Hdir1 & Hg1).
  destruct (NewTemporary_GOPATH _ _ _ _ Hnew) as (_ & _ & Henv1 & Horig & Hupd & _ & HPath).
  destruct (NewTemporary_Ok_true _ _ _ _ Hnew) as (_ & _ & _ & _ & Hcwd2 & Hp12).
  destruct (Copy_grows _ _ _ _ _ Hcopy) as [(Hcwd3 & _) Hp23].
  destruct Hg1 as [(Hcwd1 & Henvw & Hgow) _].
  destruct (Reset_keep (KeepTempDir true (set_deleteDir true t0)) w' eq_refl) as [Hfs Hcwd].
  destruct (Reset_GOPATH (KeepTempDir true (set_deleteDir true t0)) w' Hupd) as [Hgo Henv].
  fold w'' in Hfs, Hcwd, Hgo, Henv. cbn [Orig KeepTempDir set_deleteDir] in Hgo, Henv.
  split; [done|]. split; [done|]. split; [congruence|].
  split; [unfold Getenv in *; rewrite Henv, Horig, <- Henvw; congruence|].
  cbn [Path KeepTempDir set_deleteDir]. rewrite HPath, (Stat_ext w' w'') by done.
  unfold Stat.
  rewrite (resolve_preserves w2 w' dir p Hcwd3 Hp23
             (resolve_preserves w1 w2 dir p Hcwd2 Hp12 Hres1)).
  by rewrite (preserves_dir _ _ _ _ Hp23 (preserves_dir _ _ _ _ Hp12 Hdir1)).
Qed.

Lemma KeepTempDir_keeps_witness :
  let one := SourceFile.mk "" "a/one.go" (Some (bytes "package a")) in
  let t := mkTemporary "/tmp/pre1000" "/go" "/tmp/pre1000/pkg" "/tmp/pre1000/src"
             "/tmp/pre1000/bin" true true in
  let r := NewTemporaryWithFiles "pre" [one] example_world in
  GOPATH (Reset (KeepTempDir true t) r.2) = "/go"
  ∧ Stat "/tmp/pre1000" (Reset (KeepTempDir true t) r.2) = inr (DirNode mode_0700).
Proof.
  intros one t r.
  destruct (KeepTempDir_keeps "pre" [one] example_world t r.2)
    as (_ & _ & Hgo & _ & Hst); [by_computation|].
  split; [exact Hgo | exact Hst].
Defined.

(** ** Writing the same bytes again *)

Lemma overwrite_overwrite data old : overwrite data (overwrite data old) = overwrite data old.
Proof. unfold overwrite. by rewrite drop_app_length. Qed.

(** X20.  [WriteFile] with the bytes it has just written successfully
    succeeds again and changes nothing. *)
Theorem WriteFile_again t file data w w' :
  WriteFile t file (bytes_Buffer data) w = (Ok tt, w') ->
  WriteFile t file (bytes_Buffer data) w' = (Ok tt, w').
Proof.
  intros H.
  destruct (WriteFile_Ok _ _ _ _ _ H)
    as (w1 & w2 & p & m0 & old & data' & Hmk & Hp & Hne & Hopen & [= <-] & Hw').
  destruct (MkdirAll_Ok _ _ _ _ Hmk) as (Hw1 & _ & _ & Hrd & md & Hnd).
  destruct (WriteFile_grows _ _ _ _ _ _ H) as [(Hcwd & _) _].
  assert (Hcwd1 : cwd w1 = cwd w) by (rewrite Hw1; reflexivity).
  assert (Hpres : preserves (fs w1) (fs w')).
  { rewrite Hw'. simpl. destruct Hopen as [(Hold & _) | (Hnone & -> & _)].
    - apply (insert_file_preserves _ _ _ old). by left.
    - apply (insert_file_preserves _ _ _ []). by right. }
  assert (Hcwd' : cwd w' = cwd w1) by congruence.
  pose proof (resolve_preserves w1 w' _ _ Hcwd' Hpres Hrd) as Hrd'.
  pose proof (preserves_dir _ _ _ _ Hpres Hnd) as Hnd'.
  pose proof (resolve_preserves w1 w' _ _ Hcwd' Hpres Hp) as Hp'.
  assert (Hfile : node_at (fs w') p = Some (FileNode m0 (overwrite data old)))
    by (rewrite Hw'; simpl; by apply node_at_insert_eq).
  unfold WriteFile, bind, wrap.
  rewrite (MkdirAll_existing _ _ _ _ _ Hrd' Hnd').
  unfold OpenFile_CREATE_RDWR. rewrite Hp', Hfile.
  unfold defer, io_Copy, ret. simpl. unfold WriteAt0. simpl. rewrite Hfile.
  f_equal. rewrite overwrite_overwrite. rewrite Hw'. unfold set_fs. simpl.
  by rewrite insert_insert_eq.
Qed.

Lemma WriteFile_again_witness :
  let w' := (WriteFile example_tree "a/b/c.txt" (bytes_Buffer (bytes "hello"))
               populated_world).2 in
  WriteFile example_tree "a/b/c.txt" (bytes_Buffer (bytes "hello")) w' = (Ok tt, w').
Proof.
  intros w'.
  apply (WriteFile_again example_tree "a/b/c.txt" (bytes "hello") populated_world w').
  by_computation.
Defined.

(** ** Where a joined path leads *)

Lemma location_of_Clean w x : x ≠ "" -> location_of w (filepath.Clean x) = location_of w x.
Proof.
  intros Hx. unfold filepath.Clean. rewrite bool_decide_eq_false_2 by done.
  set (C := filepath.clean_loop (filepath.rooted x) [] (filepath.elements x)).
  assert (HCsep : Forall (fun e => filepath.has_separator e = false) C)
    by (apply clean_loop_Forall; [done | done | apply elements_no_separator]).
  assert (HCne : Forall (fun e => e ≠ "") C) by (by apply clean_loop_no_empty).
  assert (HL : ∀ cur, (filepath.rooted x = true -> cur = []) ->
                      locate cur C = locate cur (filepath.elements x)).
  { intros cur Hcur. unfold C. by rewrite (locate_clean _ cur [] [] []). }
  unfold location_of at 2. rewrite <- HL by (unfold start; by intros ->).
  unfold location_of, start. destruct (filepath.rooted x) eqn:Hroot.
  - change (filepath.rooted ("/" +:+ ?s)) with true.
    change (filepath.elements ("/" +:+ ?s)) with ("" :: filepath.elements s).
    simpl. rewrite step_skip by auto.
    destruct C as [|c C']; [done|]. by rewrite elements_unelements.
  - destruct C as [|c C']; [done|].
    inversion HCsep; inversion HCne; subst.
    destruct (unelements_not_rooted c C') as [Hnr Hnn]; [done..|].
    rewrite bool_decide_eq_false_2 by done.
    by rewrite Hnr, elements_unelements.
Qed.

Lemma location_of_Join_any w a b :
  a ≠ "" ->
  location_of w (filepath.Join a b) = locate (location_of w a) (filepath.elements b).
Proof.
  intros Ha. unfold filepath.Join. rewrite bool_decide_eq_false_2 by done.
  rewrite location_of_Clean by (by destruct a).
  unfold location_of, start. rewrite rooted_app, elements_app_sep by done.
  by rewrite locate_app.
Qed.

(** X21.  The path given to [WriteFile] is joined to the source
    root and not confined to it: after a success the file is where the
    elements of the path lead from the source root, ".." included (so
    "../pkg/x.a" lands in pkg), and a leading separator is ignored
    ("/etc/passwd" lands in src/etc/passwd). *)
Theorem WriteFile_follows_path t file r w w' :
  Src t ≠ "" ->
  WriteFile t file r w = (Ok tt, w') ->
  let p := locate (location_of w (Src t)) (filepath.elements file) in
  resolve w' (filepath.Join (Src t) file) = inr p
  ∧ ∃ m d, node_at (fs w') p = Some (FileNode m d).
Proof.
  intros Hsrc H p.
  destruct (WriteFile_grows _ _ _ _ _ _ H) as [(Hcwd & _) _].
  destruct (WriteFile_written _ _ _ _ _ H) as (p' & m & d & Hres & Hnode).
  assert (p' = p) as ->.
  { apply resolve_location_of in Hres. rewrite Hres.
    rewrite (location_of_same w w') by done. by apply location_of_Join_any. }
  eauto.
Qed.

Lemma WriteFile_follows_path_witness :
  let w := (NewTemporary "d" false example_world).2 in
  (∃ m d,
     node_at (fs (WriteFile example_tree "../pkg/x.a" (bytes_Buffer (bytes "!<arch>")) w).2)
       ["home"; "d"; "pkg"; "x.a"] = Some (FileNode m d))
  ∧ ∃ m d,
      node_at (fs (WriteFile example_tree "/etc/passwd" (bytes_Buffer (bytes "root")) w).2)
        ["home"; "d"; "src"; "etc"; "passwd"] = Some (FileNode m d).
Proof.
  intros w. split.
  - destruct (WriteFile_follows_path example_tree "../pkg/x.a"
                (bytes_Buffer (bytes "!<arch>")) w
                (WriteFile example_tree "../pkg/x.a" (bytes_Buffer (bytes "!<arch>")) w).2)
      as (_ & m & d & Hnode); [done | by_computation |].
    by exists m, d.
  - destruct (WriteFile_follows_path example_tree "/etc/passwd"
                (bytes_Buffer (bytes "root")) w
                (WriteFile example_tree "/etc/passwd" (bytes_Buffer (bytes "root")) w).2)
      as (_ & m & d & Hnode); [done | by_computation |].
    by exists m, d.
Defined.

(** ** The file operations of the older revision *)

(** X22.  src/unnamed/part_000 has the same [WriteFile], [CopyFile] and
    [GenerateFile]: on a tree with the same [Src] each returns what the one
    of fakegopath.go returns and leaves the same world.  So its [WriteFile]
    does not truncate either: a new destination holds the bytes written, an
    existing one keeps its bytes past their length. *)
Theorem Part000_files_agree (t0 : Part000.Temporary) (t : Temporary) :
  Part000.Src t0 = Src t ->
  (∀ file r w, Part000.WriteFile t0 file r w = WriteFile t file r w)
  ∧ (∀ dest src w, Part000.CopyFile t0 dest src w = CopyFile t dest src w)
  ∧ (∀ A file (tpl : A -> error + list Byte.byte) args w,
       Part000.GenerateFile t0 file tpl args w = GenerateFile t file tpl args w)
  ∧ (∀ file data w w', Part000.WriteFile t0 file (bytes_Buffer data) w = (Ok tt, w') ->
       let p := location_of w (filepath.Join (Part000.Src t0) file) in
       (node_at (fs w) p = None -> node_at (fs w') p = Some (FileNode mode_0600 data))
       ∧ (∀ m old, node_at (fs w) p = Some (FileNode m old) ->
            node_at (fs w') p = Some (FileNode m (data ++ drop (length data) old)))).
Proof.
  intros Hsrc.
  assert (HW : ∀ file r w, Part000.WriteFile t0 file r w = WriteFile t file r w).
  { intros file r w. unfold Part000.WriteFile, WriteFile. by rewrite Hsrc. }
  split; [exact HW|]. split; [|split].
  - intros dest src w. unfold Part000.CopyFile, CopyFile, bind, defer.
    destruct (wrap (Open src) _ w) as [[input|e] w1]; [|done]. by rewrite HW.
  - intros A file tpl args w. unfold Part000.GenerateFile, GenerateFile.
    destruct (tpl args); [done | apply HW].
  - intros file data w w' H. rewrite HW in H. rewrite Hsrc.
    destruct (WriteFile_Ok_content _ _ _ _ _ H) as (w2 & data' & [= <-] & Hnew & Hold).
    split; [exact Hnew | exact Hold].
Qed.

Lemma Part000_files_agree_witness :
  let t0 := Part000.mkTemporary "d" "" "d/pkg" "d/src" "d/bin" false in
  Part000.CopyFile t0 "sub/y" "d/src/x" written_world
  = CopyFile example_tree "sub/y" "d/src/x" written_world
  ∧ node_at (fs (Part000.WriteFile t0 "x" (bytes_Buffer (bytes "HI")) written_world).2)
      ["home"; "d"; "src"; "x"]
    = Some (FileNode mode_0600 (bytes "HIllo world")).
Proof.
  intros t0.
  destruct (Part000_files_agree t0 example_tree eq_refl) as (_ & Hcopy & _ & Hwrite).
  split; [apply Hcopy|].
  destruct (Hwrite "x" (bytes "HI") written_world
              (Part000.WriteFile t0 "x" (bytes_Buffer (bytes "HI")) written_world).2)
    as [_ Hold]; [by_computation|].
  apply (Hold mode_0600 (bytes "hello world")). by_computation.
Defined.

(** ** What Reset logs *)



(** ** The name of the temporary directory *)



